(** * mc_npt_hs: Monte Carlo, NPT ensemble, hard spheres

    A shallow embedding of [python_examples/mc_npt_hs.py].

    Modelling conventions.
    - Python [float] and numpy [float64] values are idealised as real numbers
      ([R]); [np.exp] is [exp], [np.log] is [ln], [x**3] is [x ^ 3].  Rounding,
      infinities and NaN are outside this model.
    - What Python raises on floats is kept.  A real [overflows] when the
      float nearest to it is an infinity and [vanishes] when that float is
      0.0.  Python raises where numpy warns: [box**3] and [n / vol] in
      [calculate] raise [OverflowError] when the cube overflows and
      [ZeroDivisionError] when it vanishes while [box] is the Python [float]
      that was read, and give inf or nan once [box] is a numpy [float64],
      which it is from the first accepted volume move on
      ([box_new = box*box_scale] with [box_scale = np.exp(...)]); an [n] that
      overflows raises [OverflowError] at [n / vol] with either.  The world
      records which of the two [box] is.  The divisions and powers of the
      step ([dr_max/box], [box**3] in [delta]) have no error path here: a
      Python [float] that would raise there has raised in
      [calculate('Initial values')] before any step.
    - Python [int] is [Z].
    - The numpy array [r] of shape (n,3) is a list of rows, each row a triple.
      Indexing uses stdpp's list lookup; an index outside the array raises
      [IndexError] as numpy does.
    - The module-level variables of the script form the record [world]; the
      script's statements are computations in a state-and-exception monad over
      it.  Every call that leaves the script (console, files, statistics
      module, overlap module, random numbers) appends an [event] to the
      world's [log], so that what was called, in which order and with which
      arguments can be observed.
    - The functions imported from other modules ([overlap], [overlap_1],
      [metropolis], [random_translate_vector], [np.random.rand]) are the
      fields of the class [Collaborators]: the overlap tests are functions of
      their arguments, the random ones also take and return the state of the
      generator.  Statements hold for every instance of the class. *)

From Stdlib Require Import Reals Lra Lia ZArith List String Ascii.
From Stdlib Require Import DecimalString.
From stdpp Require Import base list.

Open Scope R_scope.

(** ** Numbers *)

(** [np.rint]: round to the nearest integer, ties to the even one. *)
Definition rint (x : R) : R :=
  let f := Int_part x in
  let d := x - IZR f in
  if Rlt_dec d (1 / 2) then IZR f
  else if Rlt_dec (1 / 2) d then IZR (f + 1)
  else if Z.even f then IZR f else IZR (f + 1).

(** A row of the position array. *)
Definition vec : Type := R * R * R.

Definition components (v : vec) : list R :=
  let '(a, b, c) := v in [a; b; c].

Definition vmap (f : R -> R) (v : vec) : vec :=
  let '(a, b, c) := v in (f a, f b, f c).

(** [ri - np.rint ( ri )] *)
Definition periodic (v : vec) : vec := vmap (fun c => c - rint c) v.

(** The position array. *)
Abbreviation positions := (list vec).

(** [r / box] and [r * box] on the whole array. *)
Definition divide_by (box : R) (r : positions) : positions :=
  map (vmap (fun c => c / box)) r.

Definition times (box : R) (r : positions) : positions :=
  map (vmap (fun c => c * box)) r.

(** The closed and the half-open unit cell, in box units. *)
Definition in_cell (c : R) : Prop := -1 / 2 <= c <= 1 / 2.
Definition in_half_open_cell (c : R) : Prop := -1 / 2 <= c < 1 / 2.

Definition all_components (P : R -> Prop) (r : positions) : Prop :=
  Forall (fun v => Forall P (components v)) r.

(** ** Python values, exceptions and the console *)

(** What [json.load] can return. *)
#[warnings="-register-all"]
Inductive json : Type :=
| JNull
| JBool (b : bool)
| JInt (z : Z)
| JFloat (x : R)
| JStr (s : string)
| JList (l : list json)
| JDict (d : list (string * json)).

(** [type(val)] *)
Inductive pytype : Type :=
| NoneType | bool_t | int_t | float_t | str_t | list_t | dict_t.

Definition type (v : json) : pytype :=
  match v with
  | JNull => NoneType
  | JBool _ => bool_t
  | JInt _ => int_t
  | JFloat _ => float_t
  | JStr _ => str_t
  | JList _ => list_t
  | JDict _ => dict_t
  end.

Definition pytype_eqb (a b : pytype) : bool :=
  match a, b with
  | NoneType, NoneType | bool_t, bool_t | int_t, int_t | float_t, float_t
  | str_t, str_t | list_t, list_t | dict_t, dict_t => true
  | _, _ => false
  end.

(** A Python [dict] keeps its keys in insertion order. *)
Fixpoint dict_get {V : Type} (key : string) (d : list (string * V)) : option V :=
  match d with
  | [] => None
  | (k, v) :: d' => if String.eqb key k then Some v else dict_get key d'
  end.

Definition keys {V : Type} (d : list (string * V)) : list string := map fst d.

Inductive exn : Type :=
| AssertionError (msg : string)
| AttributeError
| IndexError
| KeyError
| NameError
| OverflowError
| TypeError
| ZeroDivisionError
| SystemExit (code : option Z).

(** [VariableType ( nam = ..., val = ... )]; the other attributes of the
    class keep their defaults. *)
Record VariableType : Type := { nam : string; val : R }.

(** Calls that leave the script, in the order they are made. *)
Inductive event : Type :=
| EPrint (s : string)
| EWarning (key : string) (known : list string)
| EFormatD (label : string) (v : Z)
| EFormatF (label : string) (v : R)
| EIntroduction (fast : bool)
| EConclusion (fast : bool)
| ESeed
| EReadCnf (name : string)
| EWriteCnf (name : string) (n : Z) (box : R) (r : positions)
| EWriteVariables (vs : list VariableType)
| ERunBegin (vs : list VariableType)
| EBlkBegin
| EBlkAdd (vs : list VariableType)
| EBlkEnd (blk : Z)
| ERunEnd
| ERand (zeta : R)
| ERandomTranslate (dr_max : R) (old : vec) (new : vec)
| EOverlap1 (ri : vec) (box : R) (rj : positions) (res : bool)
| EOverlap (box : R) (r : positions) (res : bool)
| EMetropolis (delta : R) (res : bool).

(** ** The monad of the script: state and exceptions *)

Inductive result (A : Type) : Type :=
| Ok (a : A)
| Raise (e : exn).
Arguments Ok {A} a.
Arguments Raise {A} e.

Definition M (S A : Type) : Type := S -> result A * S.

Definition ret {S A : Type} (a : A) : M S A := fun s => (Ok a, s).

Definition bind {S A B : Type} (c : M S A) (k : A -> M S B) : M S B :=
  fun s => match c s with
           | (Ok a, s') => k a s'
           | (Raise e, s') => (Raise e, s')
           end.

Definition raise {S A : Type} (e : exn) : M S A := fun s => (Raise e, s).

Definition gets {S A : Type} (f : S -> A) : M S A := fun s => (Ok (f s), s).

Definition modify {S : Type} (f : S -> S) : M S unit := fun s => (Ok tt, f s).

Declare Scope script_scope.
Delimit Scope script_scope with script.
Notation "x <- c ;; k" := (bind c (fun x => k))
  (at level 100, c at next level, k at level 200, right associativity)
  : script_scope.
Notation "c ;; k" := (bind c (fun _ => k))
  (at level 100, k at level 200, right associativity) : script_scope.
Open Scope script_scope.

(** [assert cond, msg] *)
Definition assert {S : Type} (cond : bool) (msg : string) : M S unit :=
  if cond then ret tt else raise (AssertionError msg).

(** [for x in xs: body] *)
Fixpoint for_each {S A : Type} (xs : list A) (body : A -> M S unit) : M S unit :=
  match xs with
  | [] => ret tt
  | x :: xs' => body x ;; for_each xs' body
  end.

(** [range(lo, hi)] *)
Definition range (lo hi : Z) : list Z :=
  map (fun k => (lo + Z.of_nat k)%Z) (seq 0 (Z.to_nat (hi - lo))).

(** Where a real leaves the floats.  It [overflows] when the float nearest
    to it is an infinity, which is from half a unit in the last place above
    the largest float, [2^1024 - 2^971], and it [vanishes] when the float
    nearest to it is 0.0, which is up to half the smallest positive float,
    [2^-1074]. *)
Definition float_huge : R := IZR (2 ^ 1024 - 2 ^ 970).
Definition float_tiny : R := / IZR (2 ^ 1075).

Definition overflows (x : R) : Prop := float_huge <= Rabs x.
Definition vanishes (x : R) : Prop := Rabs x <= float_tiny.

(** [x**3] on a float: a Python [float] raises [OverflowError] when the
    cube overflows; a numpy [float64] ([numpy = true]) gives inf with a
    warning. *)
Definition cube {S : Type} (numpy : bool) (x : R) : M S R :=
  if numpy then ret (x ^ 3)
  else if Rle_dec float_huge (Rabs (x ^ 3)) then raise OverflowError
  else ret (x ^ 3).

(** [a / b] with [a] an [int] and [b] a float: [a] is converted to a float
    first, which raises [OverflowError] when it overflows; then a Python
    [float] raises [ZeroDivisionError] when [b] is 0.0, where a numpy
    [float64] gives inf or nan with a warning. *)
Definition int_over_float {S : Type} (numpy : bool) (a : Z) (b : R) : M S R :=
  if Rle_dec float_huge (Rabs (IZR a)) then raise OverflowError
  else if numpy then ret (IZR a / b)
  else if Rle_dec (Rabs b) float_tiny then raise ZeroDivisionError
  else ret (IZR a / b).

(** A state that carries the log of outside calls. *)
Class Logged (S : Type) : Type := record : event -> S -> S.

#[global] Instance console_logged : Logged (list event) :=
  fun e out => out ++ [e].

Definition emit {S : Type} `{Logged S} (e : event) : M S unit :=
  modify (record e).

Definition print {S : Type} `{Logged S} (s : string) : M S unit :=
  emit (EPrint s).

(** ** Reading the parameters (lines 71-114) *)

Definition cnf_prefix : string := "cnf.".
Definition inp_tag : string := "inp".
Definition out_tag : string := "out".

Definition defaults : list (string * json) :=
  [ ("nblock", JInt 10); ("nstep", JInt 1000); ("dr_max", JFloat 0.15);
    ("db_max", JFloat 0.005); ("pressure", JFloat 4.0); ("fast", JBool true) ]%string.

Definition wrong_type (key : string) : string :=
  String.append key " has the wrong type".

(** [for key, val in nml.items(): ...] *)
Fixpoint check_keys (items : list (string * json)) : M (list event) unit :=
  match items with
  | [] => ret tt
  | (key, val) :: rest =>
      match dict_get key defaults with
      | Some d =>
          assert (pytype_eqb (type val) (type d)) (wrong_type key) ;;
          check_keys rest
      | None =>
          emit (EWarning key (keys defaults)) ;;
          check_keys rest
      end
  end.

(** [nml[key] if key in nml else defaults[key]] *)
Definition setting (key : string) (nml : list (string * json)) : option json :=
  match dict_get key nml with
  | Some v => Some v
  | None => dict_get key defaults
  end.

(** Uses of a value as an [int], a [float] or a truth value.  After
    [check_keys] the types agree with those of the defaults, so the error
    branches are not taken (lemma [settings_typed]). *)
Definition as_int {S : Type} (v : option json) : M S Z :=
  match v with
  | Some (JInt z) => ret z
  | Some _ => raise TypeError
  | None => raise KeyError
  end.

Definition as_float {S : Type} (v : option json) : M S R :=
  match v with
  | Some (JFloat x) => ret x
  | Some _ => raise TypeError
  | None => raise KeyError
  end.

Definition as_bool {S : Type} (v : option json) : M S bool :=
  match v with
  | Some (JBool b) => ret b
  | Some _ => raise TypeError
  | None => raise KeyError
  end.

Record params : Type := {
  nblock : Z;
  nstep : Z;
  dr_max : R;
  db_max : R;
  pressure : R;
  fast : bool
}.

(** Lines 76-100: the banner, [json.load], the key check and the settings.
    [parsed] is what [json.load(sys.stdin)] returns, [None] when it raises
    [json.JSONDecodeError]. *)
Definition read_parameters (parsed : option json) : M (list event) params :=
  print "mc_npt_hs" ;;
  print "Monte Carlo, constant-NPT ensemble" ;;
  nml <- match parsed with
         | Some v => ret v
         | None =>
             print "Exiting on Invalid JSON format" ;;
             raise (SystemExit None)
         end ;;
  items <- match nml with
           | JDict d => ret d
           | _ => raise AttributeError
           end ;;
  check_keys items ;;
  nblock <- as_int (setting "nblock" items) ;;
  nstep <- as_int (setting "nstep" items) ;;
  dr_max <- as_float (setting "dr_max" items) ;;
  db_max <- as_float (setting "db_max" items) ;;
  pressure <- as_float (setting "pressure" items) ;;
  fast <- as_bool (setting "fast" items) ;;
  ret {| nblock := nblock; nstep := nstep; dr_max := dr_max;
         db_max := db_max; pressure := pressure; fast := fast |}.

(** Lines 102-114: binding the overlap module, seeding, echo of the
    parameters. *)
Definition announce (p : params) : M (list event) unit :=
  emit (EIntroduction (fast p)) ;;
  emit ESeed ;;
  emit (EFormatD "Number of blocks" (nblock p)) ;;
  emit (EFormatD "Number of steps per block" (nstep p)) ;;
  emit (EFormatF "Pressure" (pressure p)) ;;
  emit (EFormatF "Maximum displacement" (dr_max p)) ;;
  emit (EFormatF "Maximum box displacement" (db_max p)).

(** ** The block tag (line 168) *)

(** [str(blk)] for an [int]. *)
Definition str (z : Z) : string := NilZero.string_of_int (Z.to_int z).

Fixpoint zeros (k : nat) : string :=
  match k with
  | O => EmptyString
  | S k' => String "0" (zeros k')
  end.

(** [s.zfill(width)]: zeros are put on the left, after a leading sign. *)
Definition zfill (width : nat) (s : string) : string :=
  let pad := zeros (width - String.length s) in
  match s with
  | String c s' =>
      if (Ascii.eqb c "+" || Ascii.eqb c "-")%bool
      then String c (String.append pad s')
      else String.append pad s
  | EmptyString => pad
  end.

(** [str(blk).zfill(3) if blk<1000 else 'sav'] *)
Definition sav_tag_for (blk : Z) : string :=
  if (blk <? 1000)%Z then zfill 3 (str blk) else "sav".

(** ** The collaborators *)

(** What the script imports from [maths_module], [mc_hs_fast_module] /
    [mc_hs_slow_module] and numpy's random generator.  [rng] is the state of
    the generator; the first argument of [overlap] and [overlap_1] is the
    [fast] flag that selected the module they come from. *)
Class Collaborators : Type := {
  rng : Type;
  np_random_rand : rng -> R * rng;
  random_translate_vector : R -> vec -> rng -> vec * rng;
  metropolis : R -> rng -> bool * rng;
  overlap : bool -> R -> positions -> bool;
  overlap_1 : bool -> vec -> R -> positions -> bool
}.

Section Script.

Context `{C : Collaborators}.

(** ** The module-level variables *)

(** [moves] is unbound until the first step assigns it and is never read
    before; [m_ratio] and [v_ratio] are unbound ([None]) until the first
    step, and [calculate] reads them when called without a string.
    [box_numpy] tells whether [box] is a numpy [float64] (after an accepted
    volume move) or still the Python [float] that was read. *)
Record world : Type := {
  n : Z;
  box : R;
  box_numpy : bool;
  r : positions;
  moves : Z;
  m_ratio : option R;
  v_ratio : option R;
  sav_tag : string;
  gen : rng;
  log : list event
}.

(** [box = box_new]: the new value is a numpy [float64]. *)
Definition set_box (x : R) (w : world) : world :=
  {| n := n w; box := x; box_numpy := true; r := r w; moves := moves w;
     m_ratio := m_ratio w; v_ratio := v_ratio w; sav_tag := sav_tag w;
     gen := gen w; log := log w |}.

Definition set_r (x : positions) (w : world) : world :=
  {| n := n w; box := box w; box_numpy := box_numpy w; r := x;
     moves := moves w; m_ratio := m_ratio w; v_ratio := v_ratio w;
     sav_tag := sav_tag w; gen := gen w; log := log w |}.

Definition set_moves (x : Z) (w : world) : world :=
  {| n := n w; box := box w; box_numpy := box_numpy w; r := r w; moves := x;
     m_ratio := m_ratio w; v_ratio := v_ratio w; sav_tag := sav_tag w;
     gen := gen w; log := log w |}.

Definition set_m_ratio (x : R) (w : world) : world :=
  {| n := n w; box := box w; box_numpy := box_numpy w; r := r w;
     moves := moves w; m_ratio := Some x; v_ratio := v_ratio w;
     sav_tag := sav_tag w; gen := gen w; log := log w |}.

Definition set_v_ratio (x : R) (w : world) : world :=
  {| n := n w; box := box w; box_numpy := box_numpy w; r := r w;
     moves := moves w; m_ratio := m_ratio w; v_ratio := Some x;
     sav_tag := sav_tag w; gen := gen w; log := log w |}.

Definition set_sav_tag (x : string) (w : world) : world :=
  {| n := n w; box := box w; box_numpy := box_numpy w; r := r w;
     moves := moves w; m_ratio := m_ratio w; v_ratio := v_ratio w;
     sav_tag := x; gen := gen w; log := log w |}.

Definition set_gen (x : rng) (w : world) : world :=
  {| n := n w; box := box w; box_numpy := box_numpy w; r := r w;
     moves := moves w; m_ratio := m_ratio w; v_ratio := v_ratio w;
     sav_tag := sav_tag w; gen := x; log := log w |}.

#[global] Instance world_logged : Logged world :=
  fun e w =>
    {| n := n w; box := box w; box_numpy := box_numpy w; r := r w;
       moves := moves w; m_ratio := m_ratio w; v_ratio := v_ratio w;
       sav_tag := sav_tag w; gen := gen w; log := log w ++ [e] |}.

(** Reading a variable that may be unbound. *)
Definition read {A : Type} (f : world -> option A) : M world A :=
  fun w => match f w with
           | Some a => (Ok a, w)
           | None => (Raise NameError, w)
           end.

(** ** Calls to the collaborators *)

Definition call_rand : M world R :=
  fun w => let '(zeta, g) := np_random_rand (gen w) in
           (Ok zeta, record (ERand zeta) (set_gen g w)).

Definition call_random_translate_vector (dr : R) (old : vec) : M world vec :=
  fun w => let '(new, g) := random_translate_vector dr old (gen w) in
           (Ok new, record (ERandomTranslate dr old new) (set_gen g w)).

Definition call_metropolis (delta : R) : M world bool :=
  fun w => let '(res, g) := metropolis delta (gen w) in
           (Ok res, record (EMetropolis delta res) (set_gen g w)).

Definition call_overlap (p : params) (box : R) (r : positions) : M world bool :=
  let res := overlap (fast p) box r in
  emit (EOverlap box r res) ;; ret res.

Definition call_overlap_1 (p : params) (ri : vec) (box : R) (rj : positions)
  : M world bool :=
  let res := overlap_1 (fast p) ri box rj in
  emit (EOverlap1 ri box rj res) ;; ret res.

(** ** [calculate] (lines 4-45) *)

Definition calculate (string : option String.string)
  : M world (list VariableType) :=
  box <- gets box ;;
  numpy <- gets box_numpy ;;
  n <- gets n ;;
  vol <- cube numpy box ;;
  rho <- int_over_float numpy n vol ;;
  ratios <- match string with
            | None =>
                m_ratio <- read m_ratio ;;
                v_ratio <- read v_ratio ;;
                ret ({| nam := "Move ratio"; val := m_ratio |},
                     {| nam := "Volume ratio"; val := v_ratio |})
            | Some _ =>
                ret ({| nam := "Move ratio"; val := 0.0 |},
                     {| nam := "Volume ratio"; val := 0.0 |})
            end ;;
  let '(m_r, v_r) := ratios in
  let density := {| nam := "Density"; val := rho |} in
  let variables := [ m_r; v_r; density ] in
  match string with
  | Some s => print s ;; emit (EWriteVariables (drop 2 variables))
  | None => ret tt
  end ;;
  ret variables.

(** ** One step (lines 136-165) *)

(** [r[i,:]] and [np.delete(r,i,0)] raise [IndexError] outside the array. *)
Definition row (r : positions) (i : nat) : M world vec :=
  match r !! i with
  | Some v => ret v
  | None => raise IndexError
  end.

Definition np_delete (r : positions) (i : nat) : M world positions :=
  if (i <? length r)%nat then ret (delete i r) else raise IndexError.

(** The body of [for i in range(n)] (lines 139-145). *)
Definition move_atom (p : params) (i : nat) : M world unit :=
  box <- gets box ;;
  r <- gets r ;;
  old <- row r i ;;
  ri <- call_random_translate_vector (dr_max p / box) old ;;
  let ri := periodic ri in
  rj <- np_delete r i ;;
  ov <- call_overlap_1 p ri box rj ;;
  if negb ov then
    modify (set_r (<[i := ri]> r)) ;;
    moves <- gets moves ;;
    modify (set_moves (moves + 1))
  else ret tt.

(** [range(n)], as array indices. *)
Definition indices (n : Z) : list nat := seq 0 (Z.to_nat n).

(** [moves / n] on two [int]s. *)
Definition int_true_div (a b : Z) : M world R :=
  if (b =? 0)%Z then raise ZeroDivisionError else ret (IZR a / IZR b).

(** Lines 149-162. *)
Definition volume_move (p : params) : M world unit :=
  modify (set_v_ratio 0.0) ;;
  zeta <- call_rand ;;
  let zeta := 2.0 * zeta - 1.0 in
  let box_scale := exp (zeta * db_max p) in
  box <- gets box ;;
  let box_new := box * box_scale in
  let den_scale := 1.0 / box_scale ^ 3 in
  r <- gets r ;;
  ov <- call_overlap p box_new r ;;
  if negb ov then
    n <- gets n ;;
    let delta := pressure p * (box_new ^ 3 - box ^ 3) in
    let delta := delta + IZR (n + 1) * ln den_scale in
    accept <- call_metropolis delta ;;
    if accept then
      modify (set_box box_new) ;;
      modify (set_v_ratio 1.0)
    else ret tt
  else ret tt.

(** Lines 164-165. *)
Definition observe : M world unit :=
  variables <- calculate None ;;
  emit (EBlkAdd variables).

(** Lines 136-147. *)
Definition sweep (p : params) : M world unit :=
  modify (set_moves 0) ;;
  n <- gets n ;;
  for_each (indices n) (move_atom p) ;;
  moves <- gets moves ;;
  m_ratio <- int_true_div moves n ;;
  modify (set_m_ratio m_ratio).

Definition step (p : params) : M world unit :=
  sweep p ;;
  volume_move p ;;
  observe.

(** ** Blocks and the run (lines 116-177) *)

(** [write_cnf_atoms ( cnf_prefix+tag, n, box, r*box )] *)
Definition write_cnf_atoms (tag : string) : M world unit :=
  n <- gets n ;;
  box <- gets box ;;
  r <- gets r ;;
  emit (EWriteCnf (String.append cnf_prefix tag) n box (times box r)).

(** Lines 167-169. *)
Definition checkpoint (blk : Z) : M world unit :=
  emit (EBlkEnd blk) ;;
  modify (set_sav_tag (sav_tag_for blk)) ;;
  sav_tag <- gets sav_tag ;;
  write_cnf_atoms sav_tag.

Definition block (p : params) (blk : Z) : M world unit :=
  emit EBlkBegin ;;
  for_each (range 0 (nstep p)) (fun _ => step p) ;;
  checkpoint blk.

(** The world right after [n, box, r = read_cnf_atoms ( cnf_prefix+inp_tag )]. *)
Definition loaded (cnf : Z * R * positions) (g : rng) (out : list event) : world :=
  let '(n, box, r) := cnf in
  {| n := n; box := box; box_numpy := false; r := r; moves := 0;
     m_ratio := None; v_ratio := None; sav_tag := "sav"; gen := g;
     log := out ++ [EReadCnf (String.append cnf_prefix inp_tag)] |}.

(** Lines 118-121. *)
Definition to_box_units : M world unit :=
  n <- gets n ;;
  emit (EFormatD "Number of particles" n) ;;
  box <- gets box ;;
  emit (EFormatF "Box length" box) ;;
  modify (fun w => set_r (divide_by box (r w)) w) ;;
  modify (fun w => set_r (map periodic (r w)) w).

Definition check_overlap (p : params) (msg : string) : M world unit :=
  box <- gets box ;;
  r <- gets r ;;
  ov <- call_overlap p box r ;;
  assert (negb ov) msg.

(** Lines 118-177. *)
Definition simulation (p : params) : M world unit :=
  to_box_units ;;
  check_overlap p "Overlap in initial configuration" ;;
  variables <- calculate (Some "Initial values"%string) ;;
  emit (ERunBegin variables) ;;
  for_each (range 1 (nblock p + 1)) (block p) ;;
  emit ERunEnd ;;
  variables <- calculate (Some "Final values"%string) ;;
  check_overlap p "Overlap in final configuration" ;;
  write_cnf_atoms out_tag ;;
  emit (EConclusion (fast p)).

(** ** The whole script *)

(** How the process ended: before a configuration was read, or with the
    world as the script left it. *)
Inductive run : Type :=
| Stopped (e : exn) (out : list event)
| Ran (res : result unit) (w : world).

(** [cnf] is what [read_cnf_atoms] returns, [g] the generator state that
    [np.random.seed()] leaves. *)
Definition main (parsed : option json) (cnf : Z * R * positions) (g : rng) : run :=
  match (p <- read_parameters parsed ;; announce p ;; ret p) [] with
  | (Raise e, out) => Stopped e out
  | (Ok p, out) =>
      let '(res, w) := simulation p (loaded cnf g out) in
      Ran res w
  end.

(** The exit status of the interpreter: [sys.exit()] without an argument
    and normal completion give 0, an uncaught exception gives 1. *)
Definition exit_status (x : run) : Z :=
  let of_exn e :=
    match e with
    | SystemExit None => 0%Z
    | SystemExit (Some c) => c
    | _ => 1%Z
    end in
  match x with
  | Stopped e _ => of_exn e
  | Ran (Raise e) _ => of_exn e
  | Ran (Ok _) _ => 0%Z
  end.

End Script.

(** ** Vocabulary of the statements *)

(** What the script prints before it reads its input. *)
Definition banner : list event :=
  [ EPrint "mc_npt_hs"; EPrint "Monte Carlo, constant-NPT ensemble" ].

(** A supplied key is recognized when it is a key of [defaults]; an item
    offends when its key is recognized and its value has another type than
    the default. *)
Definition recognized (key : string) : bool :=
  match dict_get key defaults with
  | Some _ => true
  | None => false
  end.

Definition offending (item : string * json) : bool :=
  match dict_get (fst item) defaults with
  | Some d => negb (pytype_eqb (type (snd item)) (type d))
  | None => false
  end.

(** The warnings for the unrecognized keys of [items], in input order. *)
Definition warnings (items : list (string * json)) : list event :=
  map (fun item => EWarning (fst item) (keys defaults))
      (List.filter (fun item => negb (recognized (fst item))) items).

(** The settings the script ends up with. *)
Definition int_setting (key : string) (items : list (string * json)) : Z :=
  match setting key items with Some (JInt z) => z | _ => 0%Z end.

Definition float_setting (key : string) (items : list (string * json)) : R :=
  match setting key items with Some (JFloat x) => x | _ => 0 end.

Definition bool_setting (key : string) (items : list (string * json)) : bool :=
  match setting key items with Some (JBool b) => b | _ => false end.

Definition settings (items : list (string * json)) : params :=
  {| nblock := int_setting "nblock" items;
     nstep := int_setting "nstep" items;
     dr_max := float_setting "dr_max" items;
     db_max := float_setting "db_max" items;
     pressure := float_setting "pressure" items;
     fast := bool_setting "fast" items |}.

(** The echo of the parameters (what [announce] emits). *)
Definition echo (p : params) : list event :=
  [ EIntroduction (fast p); ESeed;
    EFormatD "Number of blocks" (nblock p);
    EFormatD "Number of steps per block" (nstep p);
    EFormatF "Pressure" (pressure p);
    EFormatF "Maximum displacement" (dr_max p);
    EFormatF "Maximum box displacement" (db_max p) ].

(** A block number below 1000 written with three decimal digits. *)
Definition digit (d : Z) : ascii := ascii_of_nat (48 + Z.to_nat d).

Definition three_digits (b : Z) : string :=
  String (digit (b / 100))
    (String (digit (b / 10 mod 10)) (String (digit (b mod 10)) EmptyString)).

(** Collaborators with fixed answers, for concrete runs: the overlap tests
    answer [ov], the Metropolis test answers [acc], the random numbers are
    all [zeta] and the trial displacement is zero.  The generator state
    counts the draws. *)
Definition fixed (ov acc : bool) (zeta : R) : Collaborators :=
  {| rng := nat;
     np_random_rand := fun g => (zeta, S g);
     random_translate_vector := fun _ old g => (old, S g);
     metropolis := fun _ g => (acc, S g);
     overlap := fun _ _ _ => ov;
     overlap_1 := fun _ _ _ _ => ov |}.

(** One atom at the origin of a box of length 2, before any step. *)
Definition one_atom (C : Collaborators) (g : rng) : world :=
  {| n := 1; box := 2; box_numpy := false; r := [(0, 0, 0)]; moves := 0;
     m_ratio := None; v_ratio := None; sav_tag := "sav"; gen := g; log := [] |}.

Definition some_params : params :=
  {| nblock := 1; nstep := 1; dr_max := 0.15; db_max := 0.005;
     pressure := 4.0; fast := true |}.

Section Vocabulary.

Context `{C : Collaborators}.

(** [c] keeps [I], however it ends. *)
Definition preserves {A : Type} (I : world -> Prop) (c : M world A) : Prop :=
  forall w, I w -> I (snd (c w)).

(** [w'] has the configuration of [w]: only counters, tags, the generator and
    the log may differ. *)
Definition same_configuration (w w' : world) : Prop :=
  n w' = n w /\ box w' = box w /\ r w' = r w.

(** [c] does bookkeeping only. *)
Definition bookkeeping {A : Type} (c : M world A) : Prop :=
  forall w, same_configuration w (snd (c w)).

(** A property of the world that the three kinds of change of the script
    keep: bookkeeping, replacing a row by a periodically corrected trial
    position, and scaling the box by an exponential. *)
Record invariant (I : world -> Prop) : Prop := {
  inv_bookkeeping : forall w w', same_configuration w w' -> I w -> I w';
  inv_translate : forall w i v, I w -> I (set_r (<[i := periodic v]> (r w)) w);
  inv_rescale : forall w z, I w -> I (set_box (box w * exp z) w)
}.

(** The world after the overlap gate of a volume move: the counter is
    zeroed, one random number is drawn, the gate is consulted. *)
Definition at_gate (p : params) (w : world) : world :=
  let '(zeta, g) := np_random_rand (gen w) in
  let box_new := box w * exp ((2 * zeta - 1) * db_max p) in
  record (EOverlap box_new (r w) (overlap (fast p) box_new (r w)))
    (record (ERand zeta) (set_gen g (set_v_ratio 0 w))).

(** The argument the script hands to [metropolis]. *)
Definition delta_of (p : params) (w : world) : R :=
  let zeta := fst (np_random_rand (gen w)) in
  let box_scale := exp ((2 * zeta - 1) * db_max p) in
  pressure p * ((box w * box_scale) ^ 3 - box w ^ 3)
  + (IZR (n w) + 1) * ln (/ box_scale ^ 3).

(** The world after the two calls of one trial move of atom [i], whose
    current position is [old]: the trial position is drawn, then tested
    against the other rows. *)
Definition at_test (p : params) (i : nat) (old : vec) (w : world) : world :=
  let '(new, g) := random_translate_vector (dr_max p / box w) old (gen w) in
  let ri := periodic new in
  let rj := delete i (r w) in
  record (EOverlap1 ri (box w) rj (overlap_1 (fast p) ri (box w) rj))
    (record (ERandomTranslate (dr_max p / box w) old new) (set_gen g w)).

(** The array has a row for every index of [range(n)], and [n] is not zero
    (so that [moves / n] is defined). *)
Definition well_formed (w : world) : Prop :=
  (Z.to_nat (n w) <= length (r w))%nat /\ n w <> 0%Z.

(** Volume and density can be computed: [n] does not overflow as a float
    and, while the box length is the Python [float] that was read, its cube
    neither overflows nor vanishes (numpy warns where Python raises). *)
Definition measurable (w : world) : Prop :=
  ~ overflows (IZR (n w))
  /\ (box_numpy w = false ->
      ~ overflows (box w ^ 3) /\ ~ vanishes (box w ^ 3)).

(** [c] leaves [n] and the box length alone, and what kind of float the
    box length is. *)
Definition keeps_box {A : Type} (c : M world A) : Prop :=
  forall w,
    n (snd (c w)) = n w
    /\ box (snd (c w)) = box w /\ box_numpy (snd (c w)) = box_numpy w.

(** A positive box holding [n0] particles: volume and density are positive
    as well. *)
Definition positive_box (n0 : Z) (w : world) : Prop :=
  0 < box w /\ n w = n0 /\ 0 < box w ^ 3
  /\ ((0 < n0)%Z -> 0 < IZR (n w) / box w ^ 3).

End Vocabulary.

(** ** Vocabulary of the further properties *)

(** A coordinate in simulation units inside a box of length [box], faces
    included. *)
Definition in_box (box : R) (c : R) : Prop := - box / 2 <= c <= box / 2.

(** The calls of [write_cnf_atoms] in a log, in order: file name, [n],
    [box] and the positions handed over. *)
Definition written (out : list event) : list (string * Z * R * list vec) :=
  flat_map (fun e => match e with
                     | EWriteCnf name n box r => [ (name, n, box, r) ]
                     | _ => []
                     end) out.

Definition written_names (out : list event) : list string :=
  map (fun f => fst (fst (fst f))) (written out).

(** The answers of the calls of [overlap_1] in a log, in order, and how
    many of them report no overlap. *)
Definition trials (out : list event) : list bool :=
  flat_map (fun e => match e with
                     | EOverlap1 _ _ _ res => [ res ]
                     | _ => []
                     end) out.

Definition accepted (out : list event) : Z :=
  Z.of_nat (length (List.filter negb (trials out))).

(** The name of the snapshot of block [blk]. *)
Definition snapshot_name (blk : Z) : string :=
  String.append cnf_prefix (sav_tag_for blk).

(** Reading a tag back as a decimal number. *)
Definition number_of_tag (tag : string) : option Z :=
  option_map Z.of_int (NilZero.int_of_string tag).

(** The calls of the statistics module ([averages_module]), without the
    lists they are handed. *)
Inductive stat_call : Type :=
| RunBegin
| BlkBegin
| BlkAdd
| BlkEnd (blk : Z)
| RunEnd.

Definition stat_of (e : event) : list stat_call :=
  match e with
  | ERunBegin _ => [ RunBegin ]
  | EBlkBegin => [ BlkBegin ]
  | EBlkAdd _ => [ BlkAdd ]
  | EBlkEnd blk => [ BlkEnd blk ]
  | ERunEnd => [ RunEnd ]
  | _ => []
  end.

Definition statistics (out : list event) : list stat_call :=
  flat_map stat_of out.

(** The statistics calls of one block of [nstep] steps. *)
Definition block_protocol (nstep : Z) (blk : Z) : list stat_call :=
  BlkBegin :: repeat BlkAdd (Z.to_nat nstep) ++ [ BlkEnd blk ].

Section Further.

Context `{C : Collaborators}.

(** [c] calls [write_cnf_atoms] not at all. *)
Definition silent {A : Type} (c : M world A) : Prop :=
  forall w, written (log (snd (c w))) = written (log w).

(** A written file [f] holds [n0] particles in a positive box, every
    coordinate inside the box. *)
Definition inside_box (n0 : Z) (f : string * Z * R * list vec) : Prop :=
  let '(_, n', b, rs) := f in
  n' = n0 /\ 0 < b /\ all_components (in_box b) rs.

(** What the files of a run rest on: positions in the cell, a positive box,
    [n0] particles, and every file written so far inside its box. *)
Definition sound (n0 : Z) (w : world) : Prop :=
  (all_components in_cell (r w) /\ 0 < box w /\ n w = n0)
  /\ Forall (inside_box n0) (written (log w)).

(** [c] makes no call of the statistics module. *)
Definition unrecorded {A : Type} (c : M world A) : Prop :=
  forall w, statistics (log (snd (c w))) = statistics (log w).

End Further.

(** ** Facts about [rint] and the periodic correction *)

Lemma Int_part_bounds (x : R) : 0 <= x - IZR (Int_part x) < 1.
Proof.
  pose proof (base_fp x) as [H1 H2].
  unfold frac_part in *. lra.
Qed.

Lemma rint_within_half (x : R) : in_cell (x - rint x).
Proof.
  unfold in_cell, rint.
  pose proof (Int_part_bounds x) as Hb.
  destruct (Rlt_dec _ _) as [Hlt | Hge].
  - lra.
  - destruct (Rlt_dec _ _) as [Hgt | Hle].
    + rewrite plus_IZR. lra.
    + destruct (Z.even _); [| rewrite plus_IZR]; lra.
Qed.

Lemma Int_part_half : Int_part (1 / 2) = 0%Z.
Proof.
  symmetry. apply Int_part_spec. simpl. lra.
Qed.

Lemma rint_half : rint (1 / 2) = 0.
Proof.
  unfold rint. rewrite Int_part_half. simpl.
  destruct (Rlt_dec _ _) as [Hlt | _]; [lra |].
  destruct (Rlt_dec _ _) as [Hgt | _]; [lra | reflexivity].
Qed.

Lemma periodic_in_cell (v : vec) : Forall in_cell (components (periodic v)).
Proof.
  destruct v as [[a b] c]. simpl.
  do 3 (apply Forall_cons_2; [apply rint_within_half |]).
  apply Forall_nil_2.
Qed.

Lemma map_periodic_in_cell (r : positions) :
  all_components in_cell (map periodic r).
Proof.
  unfold all_components. apply Forall_map, Forall_forall.
  intros v _. apply periodic_in_cell.
Qed.

Lemma insert_periodic_in_cell (r : positions) (i : nat) (v : vec) :
  all_components in_cell r ->
  all_components in_cell (<[i := periodic v]> r).
Proof.
  unfold all_components. intros H.
  apply Forall_insert; [exact H | apply periodic_in_cell].
Qed.

(** ** Invariants of the script *)

Section Properties.

Context `{C : Collaborators}.

Lemma same_configuration_refl (w : world) : same_configuration w w.
Proof. repeat split. Qed.

Lemma same_configuration_trans (w1 w2 w3 : world) :
  same_configuration w1 w2 -> same_configuration w2 w3 ->
  same_configuration w1 w3.
Proof.
  unfold same_configuration. intros (Hn & Hb & Hr) (Hn' & Hb' & Hr').
  repeat split; congruence.
Qed.

Lemma preserves_bind {A B : Type} (I : world -> Prop)
  (c : M world A) (k : A -> M world B) :
  preserves I c -> (forall a, preserves I (k a)) -> preserves I (bind c k).
Proof.
  intros Hc Hk w Hw. unfold bind.
  specialize (Hc w Hw).
  destruct (c w) as [[a | e] w']; simpl in *.
  - apply Hk, Hc.
  - exact Hc.
Qed.

Lemma preserves_for_each {A : Type} (I : world -> Prop)
  (xs : list A) (body : A -> M world unit) :
  (forall x, preserves I (body x)) -> preserves I (for_each xs body).
Proof.
  intros Hbody. induction xs as [| x xs IH]; simpl.
  - intros w Hw. exact Hw.
  - apply preserves_bind; [apply Hbody | intros _; exact IH].
Qed.

Lemma bookkeeping_bind {A B : Type} (c : M world A) (k : A -> M world B) :
  bookkeeping c -> (forall a, bookkeeping (k a)) -> bookkeeping (bind c k).
Proof.
  intros Hc Hk w. unfold bind.
  specialize (Hc w).
  destruct (c w) as [[a | e] w']; simpl in *.
  - eapply same_configuration_trans; [exact Hc | apply Hk].
  - exact Hc.
Qed.

Lemma bookkeeping_preserves {A : Type} (I : world -> Prop) (c : M world A) :
  invariant I -> bookkeeping c -> preserves I c.
Proof.
  intros HI Hc w Hw. eapply inv_bookkeeping; [exact HI | apply Hc | exact Hw].
Qed.

Lemma bookkeeping_ret {A : Type} (a : A) : bookkeeping (ret a).
Proof. intros w. apply same_configuration_refl. Qed.

Lemma bookkeeping_raise {A : Type} (e : exn) : bookkeeping (@raise world A e).
Proof. intros w. apply same_configuration_refl. Qed.

Lemma bookkeeping_gets {A : Type} (f : world -> A) : bookkeeping (gets f).
Proof. intros w. apply same_configuration_refl. Qed.

Lemma bookkeeping_read {A : Type} (f : world -> option A) : bookkeeping (read f).
Proof.
  intros w. unfold read. destruct (f w); apply same_configuration_refl.
Qed.

Lemma bookkeeping_assert (cond : bool) (msg : string) :
  bookkeeping (assert cond msg).
Proof. intros w. destruct cond; apply same_configuration_refl. Qed.

Lemma bookkeeping_emit (e : event) : bookkeeping (emit e).
Proof. intros w. repeat split. Qed.

Lemma bookkeeping_row (r : positions) (i : nat) : bookkeeping (row r i).
Proof.
  intros w. unfold row. destruct (r !! i); apply same_configuration_refl.
Qed.

Lemma bookkeeping_np_delete (r : positions) (i : nat) :
  bookkeeping (np_delete r i).
Proof.
  intros w. unfold np_delete.
  destruct (i <? length r)%nat; apply same_configuration_refl.
Qed.

Lemma bookkeeping_int_true_div (a b : Z) : bookkeeping (int_true_div a b).
Proof.
  intros w. unfold int_true_div.
  destruct (b =? 0)%Z; apply same_configuration_refl.
Qed.

Lemma bookkeeping_set_moves (x : Z) : bookkeeping (modify (set_moves x)).
Proof. intros w. repeat split. Qed.

Lemma bookkeeping_set_m_ratio (x : R) : bookkeeping (modify (set_m_ratio x)).
Proof. intros w. repeat split. Qed.

Lemma bookkeeping_set_v_ratio (x : R) : bookkeeping (modify (set_v_ratio x)).
Proof. intros w. repeat split. Qed.

Lemma bookkeeping_set_sav_tag (x : string) :
  bookkeeping (modify (set_sav_tag x)).
Proof. intros w. repeat split. Qed.

Lemma bookkeeping_call_rand : bookkeeping call_rand.
Proof.
  intros w. unfold call_rand.
  destruct (np_random_rand (gen w)). repeat split.
Qed.

Lemma bookkeeping_call_random_translate_vector (dr : R) (old : vec) :
  bookkeeping (call_random_translate_vector dr old).
Proof.
  intros w. unfold call_random_translate_vector.
  destruct (random_translate_vector dr old (gen w)). repeat split.
Qed.

Lemma bookkeeping_call_metropolis (delta : R) :
  bookkeeping (call_metropolis delta).
Proof.
  intros w. unfold call_metropolis.
  destruct (metropolis delta (gen w)). repeat split.
Qed.

Create HintDb script discriminated.

#[local] Hint Resolve bookkeeping_ret bookkeeping_raise bookkeeping_gets
  bookkeeping_read bookkeeping_assert bookkeeping_emit bookkeeping_row
  bookkeeping_np_delete bookkeeping_int_true_div bookkeeping_set_moves
  bookkeeping_set_m_ratio bookkeeping_set_v_ratio bookkeeping_set_sav_tag
  bookkeeping_call_rand bookkeeping_call_random_translate_vector
  bookkeeping_call_metropolis : script.

(** Decompose a sequence of statements and settle the bookkeeping ones. *)
Ltac bookkeep :=
  repeat first
    [ solve [auto with script]
    | apply bookkeeping_bind; [| intros ?]
    | match goal with
      | |- bookkeeping (match ?x with _ => _ end) => destruct x
      | |- bookkeeping (if ?x then _ else _) => destruct x
      | |- bookkeeping (let '(_, _) := ?x in _) => destruct x
      end ].

Lemma bookkeeping_call_overlap (p : params) (b : R) (rs : positions) :
  bookkeeping (call_overlap p b rs).
Proof. unfold call_overlap. bookkeep. Qed.

Lemma bookkeeping_call_overlap_1 (p : params) (ri : vec) (b : R)
  (rj : positions) : bookkeeping (call_overlap_1 p ri b rj).
Proof. unfold call_overlap_1. bookkeep. Qed.

#[local] Hint Resolve bookkeeping_call_overlap bookkeeping_call_overlap_1
  : script.

Lemma bookkeeping_calculate (string : option String.string) :
  bookkeeping (calculate string).
Proof. unfold calculate, print, cube, int_over_float. bookkeep. Qed.

Lemma bookkeeping_observe : bookkeeping observe.
Proof. unfold observe. pose proof bookkeeping_calculate. bookkeep. Qed.

Lemma bookkeeping_write_cnf_atoms (tag : string) :
  bookkeeping (write_cnf_atoms tag).
Proof. unfold write_cnf_atoms. bookkeep. Qed.

Lemma bookkeeping_checkpoint (blk : Z) : bookkeeping (checkpoint blk).
Proof.
  unfold checkpoint. pose proof bookkeeping_write_cnf_atoms. bookkeep.
Qed.

Lemma bookkeeping_check_overlap (p : params) (msg : string) :
  bookkeeping (check_overlap p msg).
Proof. unfold check_overlap. bookkeep. Qed.

(** ** [calculate], statement by statement *)

Lemma decimal_two : 2.0 = 2.
Proof. lra. Qed.

Lemma decimal_one : 1.0 = 1.
Proof. lra. Qed.

Lemma decimal_zero : 0.0 = 0.
Proof. lra. Qed.

Lemma vanishes_in_range (x : R) : vanishes x -> ~ overflows x.
Proof.
  unfold vanishes, overflows, float_tiny, float_huge. intros Hx Hge.
  assert (H1 : / IZR (2 ^ 1075) <= 1).
  { rewrite <- Rinv_1. apply Rinv_le_contravar; [lra |].
    apply IZR_le, Z.leb_le. vm_compute. reflexivity. }
  assert (H2 : 2 <= IZR (2 ^ 1024 - 2 ^ 970))
    by (apply IZR_le, Z.leb_le; vm_compute; reflexivity).
  lra.
Qed.

Lemma moderate_float (x : R) :
  1 <= Rabs x <= 1000 -> ~ overflows x /\ ~ vanishes x.
Proof.
  unfold vanishes, overflows, float_tiny, float_huge. intros [Hlo Hhi].
  assert (H1 : / IZR (2 ^ 1075) <= / 2).
  { apply Rinv_le_contravar; [lra |].
    apply IZR_le, Z.leb_le. vm_compute. reflexivity. }
  assert (H2 : 1001 <= IZR (2 ^ 1024 - 2 ^ 970))
    by (apply IZR_le, Z.leb_le; vm_compute; reflexivity).
  split; lra.
Qed.

Lemma cube_returns {S : Type} (numpy : bool) (x : R) (s : S) :
  (numpy = false -> ~ overflows (x ^ 3)) ->
  cube numpy x s = (Ok (x ^ 3), s).
Proof.
  intros Hx. unfold cube. destruct numpy; [reflexivity |].
  destruct (Rle_dec _ _) as [Hle | _]; [| reflexivity].
  destruct (Hx eq_refl Hle).
Qed.

Lemma int_over_float_returns {S : Type} (numpy : bool) (a : Z) (b : R) (s : S) :
  ~ overflows (IZR a) -> (numpy = false -> ~ vanishes b) ->
  int_over_float numpy a b s = (Ok (IZR a / b), s).
Proof.
  intros Ha Hb. unfold int_over_float.
  destruct (Rle_dec _ _) as [Hle | _]; [destruct (Ha Hle) |].
  destruct numpy; [reflexivity |].
  destruct (Rle_dec _ _) as [Hle | _]; [| reflexivity].
  destruct (Hb eq_refl Hle).
Qed.

Lemma calculate_diagnostic (title : string) (w : world) :
  measurable w ->
  let density := {| nam := "Density"; val := IZR (n w) / box w ^ 3 |} in
  calculate (Some title) w =
    (Ok [ {| nam := "Move ratio"; val := 0 |};
          {| nam := "Volume ratio"; val := 0 |}; density ],
     record (EWriteVariables [density]) (record (EPrint title) w)).
Proof.
  intros [Hn Hbox] density.
  unfold calculate. unfold bind at 1. unfold gets at 1.
  unfold bind at 1. unfold gets at 1. unfold bind at 1. unfold gets at 1.
  unfold bind at 1.
  rewrite (cube_returns _ _ _ (fun Hf => proj1 (Hbox Hf))).
  unfold bind at 1.
  rewrite (int_over_float_returns _ _ _ _ Hn (fun Hf => proj2 (Hbox Hf))).
  unfold bind, print, emit, modify, ret. simpl.
  rewrite decimal_zero. reflexivity.
Qed.

Lemma calculate_in_step (w : world) (m v : R) :
  measurable w -> m_ratio w = Some m -> v_ratio w = Some v ->
  calculate None w =
    (Ok [ {| nam := "Move ratio"; val := m |};
          {| nam := "Volume ratio"; val := v |};
          {| nam := "Density"; val := IZR (n w) / box w ^ 3 |} ], w).
Proof.
  intros [Hn Hbox] Hm Hv.
  unfold calculate. unfold bind at 1. unfold gets at 1.
  unfold bind at 1. unfold gets at 1. unfold bind at 1. unfold gets at 1.
  unfold bind at 1.
  rewrite (cube_returns _ _ _ (fun Hf => proj1 (Hbox Hf))).
  unfold bind at 1.
  rewrite (int_over_float_returns _ _ _ _ Hn (fun Hf => proj2 (Hbox Hf))).
  unfold bind, read, ret. rewrite Hm, Hv. reflexivity.
Qed.

(** Where [calculate] raises: at [n / vol] when the cube of a Python
    [float] box length vanishes, and at [box**3] or at [n / vol] when the
    cube of a Python [float] box length or [n] overflows. *)
Lemma calculate_zero_division (string : option String.string) (w : world) :
  box_numpy w = false -> ~ overflows (IZR (n w)) -> vanishes (box w ^ 3) ->
  calculate string w = (Raise ZeroDivisionError, w).
Proof.
  intros Hf Hn Hbox.
  unfold calculate, cube, int_over_float, bind, gets, raise, ret.
  rewrite Hf.
  destruct (Rle_dec float_huge (Rabs (box w ^ 3))) as [Hle | _];
    [destruct (vanishes_in_range _ Hbox Hle) |].
  destruct (Rle_dec float_huge (Rabs (IZR (n w)))) as [Hle | _];
    [destruct (Hn Hle) |].
  destruct (Rle_dec (Rabs (box w ^ 3)) float_tiny) as [_ | Hgt];
    [reflexivity | destruct (Hgt Hbox)].
Qed.

Lemma calculate_overflow (string : option String.string) (w : world) :
  overflows (IZR (n w)) \/ box_numpy w = false /\ overflows (box w ^ 3) ->
  calculate string w = (Raise OverflowError, w).
Proof.
  intros Hover.
  unfold calculate, cube, int_over_float, bind, gets, raise, ret.
  destruct (box_numpy w).
  - destruct Hover as [Hn | [Hf _]]; [| discriminate].
    destruct (Rle_dec float_huge (Rabs (IZR (n w)))) as [_ | Hlt];
      [reflexivity | destruct (Hlt Hn)].
  - destruct (Rle_dec float_huge (Rabs (box w ^ 3))) as [_ | Hlt];
      [reflexivity |].
    destruct Hover as [Hn | [_ Hb]]; [| destruct (Hlt Hb)].
    destruct (Rle_dec float_huge (Rabs (IZR (n w)))) as [_ | Hlt'];
      [reflexivity | destruct (Hlt' Hn)].
Qed.

(** ** The volume move, statement by statement *)


Lemma volume_move_equation (p : params) (w : world) :
  let zeta := fst (np_random_rand (gen w)) in
  let box_new := box w * exp ((2 * zeta - 1) * db_max p) in
  let w2 := at_gate p w in
  volume_move p w =
    if overlap (fast p) box_new (r w) then (Ok tt, w2)
    else
      let '(accept, g') := metropolis (delta_of p w) (gen w2) in
      let w3 := record (EMetropolis (delta_of p w) accept) (set_gen g' w2) in
      if accept then (Ok tt, set_v_ratio 1 (set_box box_new w3))
      else (Ok tt, w3).
Proof.
  unfold volume_move, at_gate, delta_of, bind, modify, gets, call_rand,
    call_overlap, call_metropolis, emit, ret.
  cbn -[exp ln pow Rmult Rminus Rplus Rdiv Rinv IZR].
  destruct (np_random_rand (gen w)) as [zeta g] eqn:Hrand.
  cbn -[exp ln pow Rmult Rminus Rplus Rdiv Rinv IZR].
  rewrite !decimal_two, !decimal_one, !decimal_zero.
  replace (1 / exp ((2 * zeta - 1) * db_max p) ^ 3)
    with (/ exp ((2 * zeta - 1) * db_max p) ^ 3) by (unfold Rdiv; lra).
  destruct (overlap (fast p) _ (r w));
    cbn -[exp ln pow Rmult Rminus Rplus Rdiv Rinv IZR].
  - reflexivity.
  - rewrite plus_IZR.
    destruct (metropolis _ g) as [accept g'].
    destruct accept; reflexivity.
Qed.

(** ** The volume move: claims *)

(** C1. For every volume-rescale proposal that passes the overlap gate, the
    script calls [metropolis] exactly once, with the argument
    [delta = P * (V' - V) + (N + 1) * ln s], where [V = box^3],
    [V' = box_new^3] and [s = box_scale^(-3)]; for a box length other than
    zero [s = V / V'].  The factor on the logarithm is [N + 1]. *)
Theorem volume_move_metropolis_argument (p : params) (w : world) :
  let zeta := 2 * fst (np_random_rand (gen w)) - 1 in
  let box_scale := exp (zeta * db_max p) in
  let box_new := box w * box_scale in
  let V := box w ^ 3 in
  let V' := box_new ^ 3 in
  let s := / box_scale ^ 3 in
  let delta := pressure p * (V' - V) + (IZR (n w) + 1) * ln s in
  overlap (fast p) box_new (r w) = false ->
  (exists accept : bool,
     log (snd (volume_move p w)) =
       log w ++ [ ERand (fst (np_random_rand (gen w)));
                  EOverlap box_new (r w) false;
                  EMetropolis delta accept ])
  /\ (box w <> 0 -> s = V / V').
Proof.
  intros zeta box_scale box_new V V' s delta Hgate. split.
  - rewrite volume_move_equation.
    fold zeta box_scale box_new. rewrite Hgate.
    unfold at_gate, delta_of.
    fold zeta box_scale box_new V V' s delta.
    subst zeta box_scale box_new.
    destruct (np_random_rand (gen w)) as [z g]. simpl fst in *.
    rewrite Hgate. simpl gen.
    destruct (metropolis delta g) as [accept g'].
    exists accept.
    destruct accept; simpl; rewrite <- !app_assoc; reflexivity.
  - intros Hbox. subst s V V' box_new.
    assert (Hs : box_scale <> 0) by (apply Rgt_not_eq, exp_pos).
    field. split; assumption.
Qed.

(** C2. For every volume-rescale proposal whose rescaled box overlaps, the
    move ends without a call of [metropolis] (the log grows by the random
    draw and the overlap test only, and the generator has advanced by that
    one draw), the box length is unchanged, the volume counter is 0.0, and
    the observables of the step, where volume and density can be computed,
    report a volume ratio of 0.0. *)
Theorem volume_move_overlap_rejected (p : params) (w : world) :
  let zeta := fst (np_random_rand (gen w)) in
  let box_new := box w * exp ((2 * zeta - 1) * db_max p) in
  overlap (fast p) box_new (r w) = true ->
  exists w' : world,
    volume_move p w = (Ok tt, w')
    /\ log w' = log w ++ [ ERand zeta; EOverlap box_new (r w) true ]
    /\ gen w' = snd (np_random_rand (gen w))
    /\ box w' = box w
    /\ v_ratio w' = Some 0
    /\ (forall m : R, m_ratio w = Some m -> measurable w ->
        log (snd (observe w')) =
          log w' ++ [ EBlkAdd [ {| nam := "Move ratio"; val := m |};
                                {| nam := "Volume ratio"; val := 0 |};
                                {| nam := "Density";
                                   val := IZR (n w) / box w ^ 3 |} ] ]).
Proof.
  intros zeta box_new Hgate.
  exists (at_gate p w). rewrite volume_move_equation.
  fold zeta box_new. rewrite Hgate.
  unfold at_gate. subst zeta box_new.
  destruct (np_random_rand (gen w)) as [z g]. simpl fst in *.
  rewrite Hgate. simpl.
  repeat split; try reflexivity.
  - rewrite <- app_assoc. reflexivity.
  - intros m Hm Hmeas. unfold observe. unfold bind at 1.
    match goal with
    | |- context [calculate None ?w1] =>
        rewrite (calculate_in_step w1 m 0 Hmeas Hm eq_refl)
    end.
    reflexivity.
Qed.

(** C8. When a volume move is accepted (the gate passes and [metropolis]
    answers yes to [delta]) the box length becomes [box_new] and the volume
    counter 1.0, while the position array, the particle count, the move
    counter, the move ratio and the tag are as before. *)
Theorem accepted_volume_move_frame (p : params) (w : world) :
  let zeta := 2 * fst (np_random_rand (gen w)) - 1 in
  let box_scale := exp (zeta * db_max p) in
  let box_new := box w * box_scale in
  let delta :=
    pressure p * (box_new ^ 3 - box w ^ 3)
    + (IZR (n w) + 1) * ln (/ box_scale ^ 3) in
  overlap (fast p) box_new (r w) = false ->
  fst (metropolis delta (snd (np_random_rand (gen w)))) = true ->
  exists w' : world,
    volume_move p w = (Ok tt, w')
    /\ box w' = box_new
    /\ r w' = r w
    /\ n w' = n w
    /\ v_ratio w' = Some 1
    /\ moves w' = moves w /\ m_ratio w' = m_ratio w /\ sav_tag w' = sav_tag w.
Proof.
  intros zeta box_scale box_new delta Hgate Haccept.
  change delta with (delta_of p w) in Haccept.
  rewrite volume_move_equation. fold zeta box_scale box_new. rewrite Hgate.
  unfold at_gate. subst zeta box_scale box_new.
  destruct (np_random_rand (gen w)) as [z g]. simpl fst in *. simpl snd in *.
  simpl gen.
  destruct (metropolis (delta_of p w) g) as [accept g']. simpl in Haccept.
  subst accept.
  eexists. split; [reflexivity |]. repeat split.
Qed.

(** ** The translation move *)

Lemma move_atom_equation (p : params) (i : nat) (w : world) :
  move_atom p i w =
    match r w !! i with
    | None => (Raise IndexError, w)
    | Some old =>
        let new := fst (random_translate_vector (dr_max p / box w) old (gen w)) in
        let ri := periodic new in
        let w1 := at_test p i old w in
        if overlap_1 (fast p) ri (box w) (delete i (r w)) then (Ok tt, w1)
        else (Ok tt, set_moves (moves w + 1) (set_r (<[i := ri]> (r w)) w1))
    end.
Proof.
  unfold move_atom, at_test, bind, gets, row, np_delete,
    call_random_translate_vector, call_overlap_1, emit, modify, ret, raise.
  simpl.
  destruct (r w !! i) as [old |] eqn:Hrow; [| reflexivity].
  destruct (random_translate_vector _ old (gen w)) as [new g]. simpl.
  apply lookup_lt_Some in Hrow.
  apply Nat.ltb_lt in Hrow. rewrite Hrow. simpl.
  destruct (overlap_1 _ _ _ _); reflexivity.
Qed.

(** C3. A trial move of atom [i] (a row of the array) draws one trial
    position, corrects it periodically and tests it against the array with
    row [i] removed: the [n-1] other rows, in their order.  Without overlap
    the row is replaced and the move counter incremented; with overlap array
    and counter stay as they are. *)
Theorem move_atom_decision (p : params) (i : nat) (w : world) (old : vec) :
  r w !! i = Some old ->
  let new := fst (random_translate_vector (dr_max p / box w) old (gen w)) in
  let ri := periodic new in
  let rj := delete i (r w) in
  let ov := overlap_1 (fast p) ri (box w) rj in
  exists w' : world,
    move_atom p i w = (Ok tt, w')
    /\ log w' = log w ++ [ ERandomTranslate (dr_max p / box w) old new;
                           EOverlap1 ri (box w) rj ov ]
    /\ S (length rj) = length (r w)
    /\ (forall j : nat,
          rj !! j = if (j <? i)%nat then r w !! j else r w !! S j)
    /\ (if ov then r w' = r w /\ moves w' = moves w
        else r w' = <[i := ri]> (r w) /\ r w' !! i = Some ri
             /\ moves w' = (moves w + 1)%Z)
    /\ box w' = box w /\ n w' = n w.
Proof.
  intros Hrow. cbv zeta. rewrite move_atom_equation, Hrow. cbv zeta.
  set (new := fst (random_translate_vector (dr_max p / box w) old (gen w))).
  set (ri := periodic new). set (rj := delete i (r w)).
  set (ov := overlap_1 (fast p) ri (box w) rj).
  assert (Hlog : log (at_test p i old w) =
            log w ++ [ ERandomTranslate (dr_max p / box w) old new;
                       EOverlap1 ri (box w) rj ov ]).
  { unfold at_test. subst ov rj ri new.
    destruct (random_translate_vector _ old (gen w)) as [v g]. simpl.
    rewrite <- app_assoc. reflexivity. }
  assert (Hframe : r (at_test p i old w) = r w
                   /\ moves (at_test p i old w) = moves w
                   /\ box (at_test p i old w) = box w
                   /\ n (at_test p i old w) = n w).
  { unfold at_test.
    destruct (random_translate_vector _ old (gen w)) as [v g].
    repeat split. }
  destruct Hframe as (Hr & Hm & Hb & Hn).
  pose proof (lookup_lt_Some _ _ _ Hrow) as Hlt.
  assert (Hlen : S (length rj) = length (r w)).
  { subst rj. rewrite length_delete by (eexists; exact Hrow). lia. }
  assert (Hrest : forall j : nat,
            rj !! j = if (j <? i)%nat then r w !! j else r w !! S j).
  { intros j. subst rj. destruct (j <? i)%nat eqn:Hji.
    - apply list_lookup_delete_lt, Nat.ltb_lt, Hji.
    - apply list_lookup_delete_ge, Nat.ltb_ge, Hji. }
  clearbody ov.
  destruct ov; eexists; (split; [reflexivity |]); simpl.
  - repeat split; assumption.
  - repeat split; try assumption.
    apply list_lookup_insert_eq. exact Hlt.
Qed.

(** ** What a step can change *)

Lemma same_configuration_at_test (p : params) (i : nat) (old : vec) (w : world) :
  same_configuration w (at_test p i old w).
Proof.
  unfold at_test.
  destruct (random_translate_vector _ old (gen w)). repeat split.
Qed.

Lemma same_configuration_at_gate (p : params) (w : world) :
  same_configuration w (at_gate p w).
Proof.
  unfold at_gate. destruct (np_random_rand (gen w)). repeat split.
Qed.

Lemma preserves_move_atom (I : world -> Prop) (p : params) (i : nat) :
  invariant I -> preserves I (move_atom p i).
Proof.
  intros HI w Hw. rewrite move_atom_equation.
  destruct (r w !! i) as [old |]; [| exact Hw]. cbv zeta.
  pose proof (same_configuration_at_test p i old w) as Hsame.
  pose proof (inv_bookkeeping I HI _ _ Hsame Hw) as H1.
  destruct (overlap_1 _ _ _ _); simpl; [exact H1 |].
  destruct Hsame as (_ & _ & Hr).
  eapply (inv_bookkeeping I HI); [| apply (inv_translate I HI), H1].
  rewrite Hr. repeat split.
Qed.

Lemma preserves_volume_move (I : world -> Prop) (p : params) :
  invariant I -> preserves I (volume_move p).
Proof.
  intros HI w Hw. rewrite volume_move_equation. cbv zeta.
  pose proof (same_configuration_at_gate p w) as Hsame.
  pose proof (inv_bookkeeping I HI _ _ Hsame Hw) as H1.
  destruct (overlap _ _ _); simpl; [exact H1 |].
  destruct (metropolis _ _) as [accept g'].
  destruct Hsame as (_ & Hb & _).
  destruct accept; simpl.
  - eapply (inv_bookkeeping I HI); [| apply (inv_rescale I HI), H1].
    rewrite Hb. repeat split.
  - eapply (inv_bookkeeping I HI); [| exact H1]. repeat split.
Qed.

(** Decompose a sequence of statements and settle each by the lemma that
    fits it. *)
Ltac keep HI :=
  repeat match goal with
    | |- preserves _ (move_atom _ _) => apply preserves_move_atom; exact HI
    | |- preserves _ (volume_move _) => apply preserves_volume_move; exact HI
    | |- preserves _ (for_each _ _) => apply preserves_for_each; intros ?
    | |- preserves _ (bind _ _) => apply preserves_bind; [| intros ?]
    | |- preserves _ _ =>
        apply bookkeeping_preserves; [exact HI | solve [auto with script]]
    end.

#[local] Hint Resolve bookkeeping_calculate bookkeeping_observe
  bookkeeping_write_cnf_atoms bookkeeping_checkpoint
  bookkeeping_check_overlap : script.

Lemma preserves_sweep (I : world -> Prop) (p : params) :
  invariant I -> preserves I (sweep p).
Proof. intros HI. unfold sweep. keep HI. Qed.

Lemma preserves_step (I : world -> Prop) (p : params) :
  invariant I -> preserves I (step p).
Proof.
  intros HI. unfold step.
  apply preserves_bind; [apply preserves_sweep, HI | intros _].
  keep HI.
Qed.

Lemma preserves_block (I : world -> Prop) (p : params) (blk : Z) :
  invariant I -> preserves I (block p blk).
Proof.
  intros HI. unfold block.
  apply preserves_bind; [keep HI | intros _].
  apply preserves_bind; [| intros _; keep HI].
  apply preserves_for_each. intros _. apply preserves_step, HI.
Qed.

Lemma to_box_units_equation (w : world) :
  to_box_units w =
    (Ok tt,
     set_r (map periodic (divide_by (box w) (r w)))
       (record (EFormatF "Box length" (box w))
          (record (EFormatD "Number of particles" (n w)) w))).
Proof. reflexivity. Qed.

Lemma check_overlap_equation (p : params) (msg : string) (w : world) :
  let ov := overlap (fast p) (box w) (r w) in
  check_overlap p msg w =
    (if ov then Raise (AssertionError msg) else Ok tt,
     record (EOverlap (box w) (r w) ov) w).
Proof.
  cbv zeta.
  unfold check_overlap, call_overlap, bind, gets, emit, modify, ret, assert.
  destruct (overlap _ _ _); reflexivity.
Qed.

(** The run keeps whatever holds once the positions are in box units. *)
Lemma simulation_keeps (I : world -> Prop) (p : params) (w : world) :
  invariant I -> I (snd (to_box_units w)) -> I (snd (simulation p w)).
Proof.
  intros HI Hstart. unfold simulation.
  unfold bind at 1. rewrite to_box_units_equation in *. simpl in Hstart.
  revert Hstart. generalize (set_r (map periodic (divide_by (box w) (r w)))
       (record (EFormatF "Box length" (box w))
          (record (EFormatD "Number of particles" (n w)) w))).
  change (preserves I
    (check_overlap p "Overlap in initial configuration" ;;
     variables <- calculate (Some "Initial values"%string) ;;
     emit (ERunBegin variables) ;;
     for_each (range 1 (nblock p + 1)) (block p) ;;
     emit ERunEnd ;;
     variables <- calculate (Some "Final values"%string) ;;
     check_overlap p "Overlap in final configuration" ;;
     write_cnf_atoms out_tag ;;
     emit (EConclusion (fast p)))).
  apply preserves_bind; [keep HI | intros _].
  apply preserves_bind; [keep HI | intros ?].
  apply preserves_bind; [keep HI | intros _].
  apply preserves_bind;
    [apply preserves_for_each; intros blk; apply preserves_block, HI | intros _].
  keep HI.
Qed.

(** The positions are in the closed cell. *)
Lemma invariant_in_cell :
  invariant (fun w => all_components in_cell (r w)).
Proof.
  split.
  - intros w w' (_ & _ & Hr) Hw. rewrite Hr. exact Hw.
  - intros w i v Hw. simpl. apply insert_periodic_in_cell, Hw.
  - intros w z Hw. exact Hw.
Qed.

(** The box length is positive and the particle count is [n0]. *)
Lemma invariant_box_positive (n0 : Z) :
  invariant (fun w => 0 < box w /\ n w = n0).
Proof.
  split.
  - intros w w' (Hn & Hb & _) Hw. rewrite Hn, Hb. exact Hw.
  - intros w i v Hw. exact Hw.
  - intros w z [Hb Hn]. simpl. split; [| exact Hn].
    apply Rmult_lt_0_compat; [exact Hb | apply exp_pos].
Qed.

(** The sweep leaves the box length as it is. *)
Lemma sweep_keeps_box (p : params) (w : world) :
  box (snd (sweep p w)) = box w.
Proof.
  assert (Hgen : forall b, preserves (fun w => box w = b) (sweep p)).
  { intros b. unfold sweep.
    assert (Hbook : forall (A : Type) (c : M world A),
              bookkeeping c -> preserves (fun w => box w = b) c).
    { intros A c Hc w0 Hw0. destruct (Hc w0) as (_ & Hb & _). congruence. }
    repeat match goal with
      | |- preserves _ (move_atom _ _) => fail 1
      | |- preserves _ (for_each _ _) => apply preserves_for_each; intros ?
      | |- preserves _ (bind _ _) => apply preserves_bind; [| intros ?]
      | |- preserves _ _ => apply Hbook; solve [auto with script]
      end.
    intros w0 Hw0. rewrite move_atom_equation.
    destruct (r w0 !! _) as [old |]; [| exact Hw0]. cbv zeta.
    destruct (same_configuration_at_test p x old w0) as (_ & Hb & _).
    destruct (overlap_1 _ _ _ _); simpl; congruence. }
  apply (Hgen (box w) w). reflexivity.
Qed.

(** ** Positions and box length over the run *)

(** C4, as the script has it. After the initial read and after every
    translation move, every component of every stored position lies in the
    closed interval [-0.5, 0.5]: for the conversion to box units, for one
    trial move, for a whole step and for the whole run. *)
Theorem positions_stay_in_cell (p : params) :
  (forall w : world, all_components in_cell (r (snd (to_box_units w))))
  /\ (forall (i : nat) (w : world),
        all_components in_cell (r w) ->
        all_components in_cell (r (snd (move_atom p i w))))
  /\ (forall w : world,
        all_components in_cell (r w) ->
        all_components in_cell (r (snd (step p w))))
  /\ (forall w : world, all_components in_cell (r (snd (simulation p w)))).
Proof.
  assert (Hstart : forall w : world,
            all_components in_cell (r (snd (to_box_units w)))).
  { intros w. rewrite to_box_units_equation. simpl.
    apply map_periodic_in_cell. }
  split; [exact Hstart |]. split; [| split].
  - intros i. apply (preserves_move_atom _ p i invariant_in_cell).
  - apply (preserves_step _ p invariant_in_cell).
  - intros w.
    apply (simulation_keeps (fun w => all_components in_cell (r w)) p w
             invariant_in_cell (Hstart w)).
Qed.

(** C10. If the box length is positive before a step it is positive after
    it, and the particle count is the same, so that volume and density stay
    positive; the same holds for a block and for the whole run.  The sweep
    leaves the box length as it is, and the volume move either keeps it or
    multiplies it by [exp (zeta * db_max)]. *)
Theorem box_stays_positive (p : params) (w : world) :
  0 < box w ->
  positive_box (n w) (snd (step p w))
  /\ (forall blk : Z, positive_box (n w) (snd (block p blk w)))
  /\ positive_box (n w) (snd (simulation p w))
  /\ box (snd (sweep p w)) = box w
  /\ (box (snd (volume_move p w)) = box w
      \/ box (snd (volume_move p w)) =
           box w * exp ((2 * fst (np_random_rand (gen w)) - 1) * db_max p)).
Proof.
  intros Hbox.
  assert (Hmore : forall w' : world,
            0 < box w' /\ n w' = n w -> positive_box (n w) w').
  { intros w' [Hb Hn].
    assert (Hvol : 0 < box w' ^ 3) by (apply pow_lt, Hb).
    repeat split; try assumption.
    intros Hpos. rewrite Hn.
    apply Rdiv_lt_0_compat; [apply IZR_lt, Hpos | exact Hvol]. }
  pose proof (invariant_box_positive (n w)) as HI.
  split; [| split; [| split; [| split]]].
  - apply Hmore, (preserves_step _ p HI). auto.
  - intros blk. apply Hmore, (preserves_block _ p blk HI). auto.
  - apply Hmore, (simulation_keeps _ p w HI).
    rewrite to_box_units_equation. simpl. auto.
  - apply sweep_keeps_box.
  - rewrite volume_move_equation. cbv zeta.
    destruct (same_configuration_at_gate p w) as (_ & Hb & _).
    destruct (overlap _ _ _); simpl; [left; exact Hb |].
    destruct (metropolis _ _) as [accept g'].
    destruct accept; simpl; [right; reflexivity | left; exact Hb].
Qed.

(** ** A step returns *)

Lemma for_each_move_atom_returns (p : params) (l : list nat) :
  forall w : world,
    Forall (fun i => (i < length (r w))%nat) l ->
    exists w1 : world,
      for_each l (move_atom p) w = (Ok tt, w1)
      /\ length (r w1) = length (r w) /\ n w1 = n w.
Proof.
  induction l as [| i l IH]; intros w Hl.
  - exists w. repeat split.
  - apply Forall_cons_1 in Hl as [Hi Hl].
    cbn [for_each]. unfold bind. rewrite move_atom_equation.
    destruct (lookup_lt_is_Some_2 _ _ Hi) as [old Hold]. rewrite Hold.
    cbv zeta.
    destruct (same_configuration_at_test p i old w) as (Hn & _ & Hr).
    destruct (overlap_1 _ _ _ _).
    + destruct (IH (at_test p i old w)) as (w1 & Hrun & Hlen & Hn1).
      { rewrite Hr. exact Hl. }
      exists w1. rewrite Hrun, Hlen, Hn1, Hr, Hn. repeat split.
    + match goal with
      | |- context [for_each l _ ?w0] =>
          destruct (IH w0) as (w1 & Hrun & Hlen & Hn1)
      end.
      { simpl. rewrite length_insert. exact Hl. }
      exists w1. rewrite Hrun, Hlen, Hn1. simpl.
      rewrite length_insert, Hn. repeat split.
Qed.

(** On a well-formed world the sweep returns and binds [m_ratio]. *)
Lemma sweep_returns (p : params) (w : world) :
  well_formed w ->
  exists (w1 : world) (m : R),
    sweep p w = (Ok tt, w1) /\ m_ratio w1 = Some m.
Proof.
  intros [Hrows Hn].
  unfold sweep. unfold bind at 1. unfold modify at 1.
  unfold bind at 1. unfold gets at 1. unfold bind at 1.
  destruct (for_each_move_atom_returns p (indices (n (set_moves 0 w)))
              (set_moves 0 w)) as (w1 & Hrun & _ & Hn1).
  { apply Forall_forall. intros i Hi. apply list_elem_of_In in Hi.
    unfold indices in Hi. apply in_seq in Hi. simpl in *. lia. }
  rewrite Hrun.
  unfold bind, gets, int_true_div, modify, ret. simpl in *.
  apply Z.eqb_neq in Hn. rewrite Hn.
  eexists. eexists. split; reflexivity.
Qed.

(** *** What keeps the box length and its kind *)

Lemma keeps_box_bind {A B : Type} (c : M world A) (k : A -> M world B) :
  keeps_box c -> (forall a, keeps_box (k a)) -> keeps_box (bind c k).
Proof.
  intros Hc Hk w. unfold bind. specialize (Hc w).
  destruct (c w) as [[a | e] w']; simpl in *; [| exact Hc].
  destruct (Hk a w') as (Hn & Hb & Hf). destruct Hc as (Hn' & Hb' & Hf').
  repeat split; congruence.
Qed.

Lemma keeps_box_for_each {A : Type} (xs : list A) (body : A -> M world unit) :
  (forall x, keeps_box (body x)) -> keeps_box (for_each xs body).
Proof.
  intros Hbody. induction xs as [| x xs IH]; simpl.
  - intros w. repeat split.
  - apply keeps_box_bind; [apply Hbody | intros _; exact IH].
Qed.

Lemma keeps_box_bookkeeping {A : Type} (c : M world A) :
  (forall w, box_numpy (snd (c w)) = box_numpy w) -> bookkeeping c ->
  keeps_box c.
Proof.
  intros Hf Hc w. destruct (Hc w) as (Hn & Hb & _).
  split; [exact Hn | split; [exact Hb | apply Hf]].
Qed.

(** Decompose a sequence of statements none of which assigns [box]. *)
Ltac box_kept :=
  repeat match goal with
    | |- keeps_box (bind _ _) => apply keeps_box_bind; [| intros ?]
    | |- keeps_box (for_each _ _) => apply keeps_box_for_each; intros ?
    | |- keeps_box (match ?x with _ => _ end) => destruct x; cbv iota
    | |- keeps_box (row ?rs ?i) => unfold row
    | |- keeps_box (np_delete _ _) => unfold np_delete
    | |- keeps_box (int_true_div _ _) => unfold int_true_div
    | |- keeps_box (assert ?b _) => unfold assert
    | |- keeps_box (print _) => unfold print
    | |- keeps_box (read ?f) =>
        intros ?; unfold read; destruct (f _); repeat split
    | |- keeps_box call_rand =>
        intros ?; unfold call_rand; destruct (np_random_rand _);
        repeat split
    | |- keeps_box (call_random_translate_vector _ _) =>
        intros ?; unfold call_random_translate_vector;
        destruct (random_translate_vector _ _ _); repeat split
    | |- keeps_box (call_metropolis _) =>
        intros ?; unfold call_metropolis; destruct (metropolis _ _);
        repeat split
    | |- keeps_box (ret _) => intros ?; repeat split
    | |- keeps_box (raise _) => intros ?; repeat split
    | |- keeps_box (gets _) => intros ?; repeat split
    | |- keeps_box (emit _) => intros ?; repeat split
    | |- keeps_box (modify _) => intros ?; repeat split
    end.

Lemma keeps_box_sweep (p : params) : keeps_box (sweep p).
Proof. unfold sweep, move_atom, call_overlap_1. box_kept. Qed.

Lemma keeps_box_calculate (string : option String.string) :
  keeps_box (calculate string).
Proof. unfold calculate, cube, int_over_float. box_kept. Qed.

Lemma measurable_kept {A : Type} (c : M world A) :
  keeps_box c -> preserves measurable c.
Proof.
  intros Hc w Hw. destruct (Hc w) as (Hn & Hb & Hf).
  unfold measurable. rewrite Hn, Hb, Hf. exact Hw.
Qed.

(** A volume move keeps [n]; a rejected one keeps the box length and its
    kind, and an accepted one makes it a numpy [float64]. *)
Lemma measurable_volume_move (p : params) : preserves measurable (volume_move p).
Proof.
  intros w Hw. rewrite volume_move_equation. cbv zeta.
  assert (Hgate : n (at_gate p w) = n w
                  /\ box (at_gate p w) = box w
                  /\ box_numpy (at_gate p w) = box_numpy w).
  { unfold at_gate. destruct (np_random_rand (gen w)). repeat split. }
  destruct Hgate as (Hn & Hb & Hf).
  assert (Hsame : measurable (at_gate p w)).
  { unfold measurable. rewrite Hn, Hb, Hf. exact Hw. }
  destruct (overlap _ _ _); [exact Hsame |].
  destruct (metropolis _ _) as [accept g'].
  destruct accept; cbn [snd]; [| exact Hsame].
  split; [exact (proj1 Hsame) | intros Hkind; discriminate Hkind].
Qed.

Lemma measurable_step (p : params) : preserves measurable (step p).
Proof.
  unfold step.
  apply preserves_bind; [apply measurable_kept, keeps_box_sweep | intros _].
  apply preserves_bind; [apply measurable_volume_move | intros _].
  apply measurable_kept. unfold observe.
  apply keeps_box_bind; [apply keeps_box_calculate | intros ?; box_kept].
Qed.

(** A volume move returns and binds the volume counter; the move ratio is
    as before. *)
Lemma volume_move_returns (p : params) (w : world) :
  exists (w2 : world) (v : R),
    volume_move p w = (Ok tt, w2)
    /\ v_ratio w2 = Some v /\ m_ratio w2 = m_ratio w.
Proof.
  rewrite volume_move_equation. cbv zeta.
  assert (Hgate : m_ratio (at_gate p w) = m_ratio w
                  /\ v_ratio (at_gate p w) = Some 0).
  { unfold at_gate. destruct (np_random_rand (gen w)). split; reflexivity. }
  destruct Hgate as [Hm Hv].
  destruct (overlap _ _ _).
  - exists (at_gate p w), 0. repeat split; assumption.
  - destruct (metropolis _ _) as [accept g'].
    destruct accept.
    + eexists. exists 1. split; [reflexivity |].
      split; [reflexivity | exact Hm].
    + eexists. exists 0. split; [reflexivity |].
      split; [exact Hv | exact Hm].
Qed.

(** On a well-formed world where volume and density can be computed the
    step returns: no statement of it raises. *)
Lemma step_returns (p : params) (w : world) :
  well_formed w -> measurable w -> exists w' : world, step p w = (Ok tt, w').
Proof.
  intros Hw Hmeas.
  destruct (sweep_returns p w Hw) as (w1 & m & Hsweep & Hm).
  pose proof (measurable_kept _ (keeps_box_sweep p) w Hmeas) as Hmeas1.
  rewrite Hsweep in Hmeas1. cbn [snd] in Hmeas1.
  destruct (volume_move_returns p w1) as (w2 & v & Hmove & Hv & Hm2).
  pose proof (measurable_volume_move p w1 Hmeas1) as Hmeas2.
  rewrite Hmove in Hmeas2. cbn [snd] in Hmeas2.
  unfold step. unfold bind at 1. rewrite Hsweep.
  unfold bind at 1. rewrite Hmove.
  unfold observe. unfold bind at 1.
  rewrite (calculate_in_step w2 m v Hmeas2); [| congruence | exact Hv].
  eexists. reflexivity.
Qed.

(** ** The observables *)

Lemma calculate_in_step_inversion (w w' : world) (vs : list VariableType) :
  calculate None w = (Ok vs, w') ->
  w' = w
  /\ exists m v : R,
       vs = [ {| nam := "Move ratio"; val := m |};
              {| nam := "Volume ratio"; val := v |};
              {| nam := "Density"; val := IZR (n w) / box w ^ 3 |} ].
Proof.
  unfold calculate, cube, int_over_float, bind, gets, read, ret, raise.
  destruct (box_numpy w).
  - destruct (Rle_dec _ _); [discriminate |].
    destruct (m_ratio w) as [m |]; [| discriminate].
    destruct (v_ratio w) as [v |]; [| discriminate].
    intros [= <- <-]. split; [reflexivity |]. exists m, v. reflexivity.
  - destruct (Rle_dec float_huge (Rabs (box w ^ 3))); [discriminate |].
    destruct (Rle_dec float_huge (Rabs (IZR (n w)))); [discriminate |].
    destruct (Rle_dec (Rabs (box w ^ 3)) float_tiny); [discriminate |].
    destruct (m_ratio w) as [m |]; [| discriminate].
    destruct (v_ratio w) as [v |]; [| discriminate].
    intros [= <- <-]. split; [reflexivity |]. exists m, v. reflexivity.
Qed.

(** C5. Where volume and density can be computed ([n] does not overflow as
    a float and, while the box length is the Python float that was read, its
    cube neither overflows nor vanishes), every call of [calculate] returns the list [Move
    ratio; Volume ratio; Density], in this order, and the density is
    [n / box^3] for the [n] and [box] of the world at the call: with a string
    (the ratios are 0.0) and without one (the ratios are the bound
    counters).  At the end of every step the list handed to [blk_add]
    carries the density of the world the step leaves, and on a well-formed
    world the step reaches that call and returns.  Elsewhere the call
    raises before anything is printed: [ZeroDivisionError] at [n / vol] when
    the cube of a Python float box length vanishes (as that of 0.0 does),
    and [OverflowError] when [n] overflows, or the cube of a Python float
    box length does at [box**3]. *)
Theorem calculate_returns (w : world) :
  let density := {| nam := "Density"; val := IZR (n w) / box w ^ 3 |} in
  (measurable w ->
   forall title : string,
     calculate (Some title) w =
       (Ok [ {| nam := "Move ratio"; val := 0 |};
             {| nam := "Volume ratio"; val := 0 |}; density ],
        record (EWriteVariables [density]) (record (EPrint title) w)))
  /\ (measurable w ->
      forall m v : R,
        m_ratio w = Some m -> v_ratio w = Some v ->
        calculate None w =
          (Ok [ {| nam := "Move ratio"; val := m |};
                {| nam := "Volume ratio"; val := v |}; density ], w))
  /\ (forall (p : params) (w' : world),
        step p w = (Ok tt, w') ->
        exists (out : list event) (m v : R),
          log w' =
            out ++ [ EBlkAdd [ {| nam := "Move ratio"; val := m |};
                               {| nam := "Volume ratio"; val := v |};
                               {| nam := "Density";
                                  val := IZR (n w') / box w' ^ 3 |} ] ])
  /\ (forall p : params,
        well_formed w -> measurable w ->
        exists w' : world, step p w = (Ok tt, w'))
  /\ (box_numpy w = false ->
      ~ overflows (IZR (n w)) -> vanishes (box w ^ 3) ->
      forall string : option String.string,
        calculate string w = (Raise ZeroDivisionError, w))
  /\ (overflows (IZR (n w))
      \/ box_numpy w = false /\ overflows (box w ^ 3) ->
      forall string : option String.string,
        calculate string w = (Raise OverflowError, w)).
Proof.
  intros density.
  split; [| split; [| split; [| split; [| split]]]].
  - intros Hmeas title. apply calculate_diagnostic, Hmeas.
  - intros Hmeas m v Hm Hv. apply calculate_in_step; assumption.
  - intros p w' Hstep. unfold step in Hstep. unfold bind at 1 in Hstep.
    destruct (sweep p w) as [[[] | e] w1]; [| discriminate].
    unfold bind at 1 in Hstep.
    destruct (volume_move p w1) as [[[] | e] w2]; [| discriminate].
    unfold observe in Hstep. unfold bind at 1 in Hstep.
    destruct (calculate None w2) as [[vs | e] w3] eqn:Hcalc; [| discriminate].
    apply calculate_in_step_inversion in Hcalc as (-> & m & v & ->).
    unfold emit, modify in Hstep. injection Hstep as <-.
    exists (log w2), m, v. reflexivity.
  - intros p. apply step_returns.
  - intros Hf Hn Hbox string. apply calculate_zero_division; assumption.
  - intros Hover string. apply calculate_overflow, Hover.
Qed.

(** ** The block tag *)

Lemma sav_tag_for_below_1000 (k : nat) :
  (k < 1000)%nat -> sav_tag_for (Z.of_nat k) = three_digits (Z.of_nat k).
Proof.
  intros Hk.
  assert (Hall : forallb
            (fun j => String.eqb (sav_tag_for (Z.of_nat j))
                        (three_digits (Z.of_nat j)))
            (seq 0 1000) = true) by (vm_compute; reflexivity).
  rewrite forallb_forall in Hall.
  apply String.eqb_eq, Hall, in_seq. lia.
Qed.

Lemma checkpoint_equation (blk : Z) (w : world) :
  checkpoint blk w =
    (Ok tt,
     record (EWriteCnf (String.append cnf_prefix (sav_tag_for blk))
               (n w) (box w) (times (box w) (r w)))
       (set_sav_tag (sav_tag_for blk) (record (EBlkEnd blk) w))).
Proof. reflexivity. Qed.

(** C9. The snapshot of block [blk] is written under the name [cnf.] followed
    by the tag of the block: the three decimal digits of [blk] when
    [1 <= blk <= 999], and the one tag [sav] for every [blk >= 1000]. *)
Theorem block_tag (blk : Z) :
  ((1 <= blk <= 999)%Z -> sav_tag_for blk = three_digits blk)
  /\ ((1000 <= blk)%Z -> sav_tag_for blk = "sav"%string)
  /\ (forall w : world,
        log (snd (checkpoint blk w)) =
          log w ++ [ EBlkEnd blk;
                     EWriteCnf (String.append "cnf." (sav_tag_for blk))
                       (n w) (box w) (times (box w) (r w)) ]).
Proof.
  split; [| split].
  - intros Hblk. rewrite <- (Z2Nat.id blk) by lia.
    apply sav_tag_for_below_1000. lia.
  - intros Hblk. unfold sav_tag_for.
    destruct (blk <? 1000)%Z eqn:Hlt; [| reflexivity].
    apply Z.ltb_lt in Hlt. lia.
  - intros w. rewrite checkpoint_equation. simpl.
    rewrite <- app_assoc. reflexivity.
Qed.

(** ** Invalid input *)

(** C6, as the script has it. When [json.load] raises [JSONDecodeError] the
    script prints its two banner lines and the message, then leaves through
    [sys.exit()]: no configuration is read, nothing else is called, and the
    exit status is 0. *)
Theorem invalid_json_exits (cnf : Z * R * positions) (g : rng) :
  main None cnf g =
    Stopped (SystemExit None)
      [ EPrint "mc_npt_hs"; EPrint "Monte Carlo, constant-NPT ensemble";
        EPrint "Exiting on Invalid JSON format" ]
  /\ exit_status (main None cnf g) = 0%Z.
Proof. split; reflexivity. Qed.

(** ** The key check *)

Lemma check_keys_passes (pre rest : list (string * json)) (out : list event) :
  Forall (fun item => offending item = false) pre ->
  check_keys (pre ++ rest) out = check_keys rest (out ++ warnings pre).
Proof.
  intros Hpre. revert out.
  induction Hpre as [| [key val] pre Hitem _ IH]; intros out.
  - unfold warnings. simpl. rewrite app_nil_r. reflexivity.
  - unfold offending in Hitem. cbn [fst snd] in Hitem.
    change (((key, val) :: pre) ++ rest) with ((key, val) :: (pre ++ rest)).
    unfold warnings, recognized.
    cbn [check_keys List.filter fst].
    destruct (dict_get key defaults) as [d |].
    + apply negb_false_iff in Hitem. rewrite Hitem.
      unfold bind, assert, ret. cbn [negb map]. apply IH.
    + unfold bind, emit, modify. cbn [negb map fst]. rewrite IH.
      unfold record, console_logged, warnings, recognized.
      rewrite <- app_assoc. reflexivity.
Qed.

Lemma check_keys_stops (key : string) (val : json)
  (post : list (string * json)) (out : list event) :
  offending (key, val) = true ->
  check_keys ((key, val) :: post) out =
    (Raise (AssertionError (wrong_type key)), out).
Proof.
  unfold offending. cbn [fst snd check_keys]. intros Hitem.
  destruct (dict_get key defaults) as [d |]; [| discriminate].
  apply negb_true_iff in Hitem. rewrite Hitem. reflexivity.
Qed.

Lemma dict_get_In {V : Type} (key : string) (v : V) (d : list (string * V)) :
  dict_get key d = Some v -> In (key, v) d.
Proof.
  induction d as [| [k x] d IH]; simpl; [discriminate |].
  destruct (String.eqb key k) eqn:Hk.
  - apply String.eqb_eq in Hk. intros [= ->]. left. congruence.
  - intros H. right. apply IH, H.
Qed.

Lemma pytype_eqb_eq (a b : pytype) : pytype_eqb a b = true -> a = b.
Proof. destruct a, b; simpl; congruence. Qed.

(** After the check every setting has the type of its default. *)
Lemma settings_typed (items : list (string * json)) (key : string) (d : json) :
  Forall (fun item => offending item = false) items ->
  dict_get key defaults = Some d ->
  exists v : json, setting key items = Some v /\ type v = type d.
Proof.
  intros Hitems Hd. unfold setting.
  destruct (dict_get key items) as [v |] eqn:Hv.
  - exists v. split; [reflexivity |].
    apply dict_get_In in Hv.
    rewrite Forall_forall in Hitems. apply list_elem_of_In in Hv.
    specialize (Hitems _ Hv). unfold offending in Hitems.
    cbn [fst snd] in Hitems.
    rewrite Hd in Hitems. apply negb_false_iff in Hitems.
    apply pytype_eqb_eq, Hitems.
  - exists d. split; [exact Hd | reflexivity].
Qed.

Lemma read_parameters_passes (items : list (string * json)) :
  Forall (fun item => offending item = false) items ->
  read_parameters (Some (JDict items)) [] =
    (Ok (settings items), banner ++ warnings items).
Proof.
  intros Hitems.
  unfold read_parameters, print, emit.
  unfold bind at 1. unfold modify at 1. unfold bind at 1. unfold modify at 1.
  unfold bind at 1. unfold ret at 1. unfold bind at 1. unfold ret at 1.
  unfold bind at 1.
  change (record (EPrint "Monte Carlo, constant-NPT ensemble")
            (record (EPrint "mc_npt_hs") [])) with banner.
  rewrite <- (app_nil_r items) at 1.
  rewrite (check_keys_passes items [] banner Hitems). simpl check_keys.
  unfold ret at 1.
  destruct (settings_typed items "nblock" _ Hitems eq_refl) as (v1 & H1 & T1).
  destruct (settings_typed items "nstep" _ Hitems eq_refl) as (v2 & H2 & T2).
  destruct (settings_typed items "dr_max" _ Hitems eq_refl) as (v3 & H3 & T3).
  destruct (settings_typed items "db_max" _ Hitems eq_refl) as (v4 & H4 & T4).
  destruct (settings_typed items "pressure" _ Hitems eq_refl) as (v5 & H5 & T5).
  destruct (settings_typed items "fast" _ Hitems eq_refl) as (v6 & H6 & T6).
  unfold settings, int_setting, float_setting, bool_setting.
  rewrite H1, H2, H3, H4, H5, H6.
  destruct v1; try discriminate T1. destruct v2; try discriminate T2.
  destruct v3; try discriminate T3. destruct v4; try discriminate T4.
  destruct v5; try discriminate T5. destruct v6; try discriminate T6.
  reflexivity.
Qed.

Lemma announce_equation (p : params) (out : list event) :
  announce p out = (Ok tt, out ++ echo p).
Proof.
  unfold announce, echo, bind, emit, modify, record, console_logged. simpl.
  rewrite <- !app_assoc. reflexivity.
Qed.

Lemma first_offender (items : list (string * json)) :
  Exists (fun item => offending item = true) items ->
  exists pre key val post,
    items = pre ++ (key, val) :: post
    /\ Forall (fun item => offending item = false) pre
    /\ offending (key, val) = true.
Proof.
  induction items as [| [k v] items IH]; intros Hex.
  - apply Exists_nil in Hex. contradiction.
  - destruct (offending (k, v)) eqn:Hkv.
    + exists [], k, v, items. repeat split; [apply Forall_nil_2 | exact Hkv].
    + apply Exists_cons in Hex as [Hex | Hex]; [congruence |].
      destruct (IH Hex) as (pre & key & val & post & -> & Hpre & Hoff).
      exists ((k, v) :: pre), key, val, post.
      repeat split; [apply Forall_cons_2; assumption | exact Hoff].
Qed.

Lemma main_stops_at_offender (pre post : list (string * json)) (key : string)
  (val : json) (cnf : Z * R * positions) (g : rng) :
  Forall (fun item => offending item = false) pre ->
  offending (key, val) = true ->
  main (Some (JDict (pre ++ (key, val) :: post))) cnf g =
    Stopped (AssertionError (wrong_type key)) (banner ++ warnings pre).
Proof.
  intros Hpre Hoff.
  unfold main, read_parameters, print, emit.
  unfold bind at 1. unfold bind at 1. unfold modify at 1.
  unfold bind at 1. unfold modify at 1.
  unfold bind at 1. unfold ret at 1. unfold bind at 1. unfold ret at 1.
  unfold bind at 1.
  change (record (EPrint "Monte Carlo, constant-NPT ensemble")
            (record (EPrint "mc_npt_hs") [])) with banner.
  rewrite (check_keys_passes pre _ banner Hpre).
  rewrite (check_keys_stops key val post _ Hoff). reflexivity.
Qed.

(** C7. The key check of the supplied items has these outcomes.
    - The first item whose key is recognized while the type of its value
      differs from the type of the default stops the script with the
      assertion error that names this key; the banner and the warnings for
      the items before it have been printed, no configuration is read, and
      the exit status is 1.
    - Hence whenever some supplied item offends in this way the run aborts,
      and the key named is that of an offending item.
    - If no item offends, every unrecognized key gets its warning and the
      run proceeds: the simulation is started with the settings of the
      items. *)
Theorem key_check_outcomes (items : list (string * json))
  (cnf : Z * R * positions) (g : rng) :
  (forall pre key val post,
     items = pre ++ (key, val) :: post ->
     Forall (fun item => offending item = false) pre ->
     offending (key, val) = true ->
     main (Some (JDict items)) cnf g =
       Stopped (AssertionError (String.append key " has the wrong type"))
         (banner ++ warnings pre)
     /\ exit_status (main (Some (JDict items)) cnf g) = 1%Z)
  /\ (Exists (fun item => offending item = true) items ->
      exists (key : string) (val : json) (out : list event),
        In (key, val) items /\ offending (key, val) = true
        /\ main (Some (JDict items)) cnf g =
             Stopped (AssertionError (String.append key " has the wrong type"))
               out)
  /\ (Forall (fun item => offending item = false) items ->
      let p := settings items in
      let start := loaded cnf g (banner ++ warnings items ++ echo p) in
      main (Some (JDict items)) cnf g =
        Ran (fst (simulation p start)) (snd (simulation p start))
      /\ (forall key val,
            In (key, val) items -> recognized key = false ->
            In (EWarning key (keys defaults)) (warnings items))).
Proof.
  split; [| split].
  - intros pre key val post -> Hpre Hoff.
    rewrite (main_stops_at_offender pre post key val cnf g Hpre Hoff).
    split; reflexivity.
  - intros Hex.
    destruct (first_offender items Hex)
      as (pre & key & val & post & -> & Hpre & Hoff).
    exists key, val, (banner ++ warnings pre). repeat split.
    + apply in_or_app. right. left. reflexivity.
    + exact Hoff.
    + apply (main_stops_at_offender pre post key val cnf g Hpre Hoff).
  - intros Hitems p start. split.
    + unfold main. unfold bind at 1.
      rewrite (read_parameters_passes items Hitems).
      unfold bind at 1. rewrite announce_equation. unfold ret.
      fold p. rewrite <- app_assoc. fold start.
      destruct (simulation p start). reflexivity.
    + intros key val Hin Hkey.
      unfold warnings. apply in_map_iff. exists (key, val).
      split; [reflexivity |].
      apply filter_In. split; [exact Hin |].
      simpl. rewrite Hkey. reflexivity.
Qed.

(** ** Further properties: the periodic correction *)

Lemma rint_integer (x : R) : exists k : Z, rint x = IZR k.
Proof.
  unfold rint.
  destruct (Rlt_dec _ _); [eexists; reflexivity |].
  destruct (Rlt_dec _ _); [eexists; reflexivity |].
  destruct (Z.even _); eexists; reflexivity.
Qed.

Lemma rint_in_cell (c : R) : in_cell c -> rint c = 0.
Proof.
  unfold in_cell. intros [Hlo Hhi]. unfold rint.
  destruct (Rlt_dec c 0) as [Hneg | Hpos].
  - assert (Hf : Int_part c = (-1)%Z).
    { symmetry. apply Int_part_spec. simpl. lra. }
    rewrite Hf. simpl.
    destruct (Rlt_dec _ _) as [H1 | H1]; [lra |].
    destruct (Rlt_dec _ _) as [H2 | H2]; reflexivity.
  - assert (Hf : Int_part c = 0%Z).
    { symmetry. apply Int_part_spec. simpl. lra. }
    rewrite Hf. simpl.
    destruct (Rlt_dec _ _) as [H1 | H1]; [reflexivity |].
    destruct (Rlt_dec _ _) as [H2 | H2]; [lra | reflexivity].
Qed.

(** X1. The periodic correction moves every coordinate by a whole number of
    box lengths: the corrected position is a periodic image of the trial
    position. *)
Theorem periodic_is_image (v : vec) :
  Forall2 (fun c c' => exists k : Z, c - c' = IZR k)
    (components v) (components (periodic v)).
Proof.
  destruct v as [[a b] c]. simpl.
  repeat (apply Forall2_cons_2;
          [match goal with
           | |- exists k, ?x - (?x - rint ?x) = _ =>
               destruct (rint_integer x) as [k Hk]; exists k; rewrite Hk; lra
           end |]).
  apply Forall2_nil_2.
Qed.

(** X2. The periodic correction is idempotent: a corrected position is left
    as it is by a second correction, also on the faces of the cell. *)
Theorem periodic_idempotent (v : vec) : periodic (periodic v) = periodic v.
Proof.
  destruct v as [[a b] c]. unfold periodic, vmap.
  rewrite !(rint_in_cell _ (rint_within_half _)).
  f_equal; [f_equal |]; lra.
Qed.

(** X4. Input that is valid JSON but not an object (a list, a number, a
    string, [true], [null]) is not caught by the handler of line 82: the loop
    over [nml.items()] raises [AttributeError], the script ends with exit
    status 1 right after the banner, and nothing else has been called. *)
Theorem non_object_input_stops (v : json) (cnf : Z * R * positions) (g : rng) :
  (forall d, v <> JDict d) ->
  main (Some v) cnf g = Stopped AttributeError banner
  /\ exit_status (main (Some v) cnf g) = 1%Z.
Proof.
  intros Hv.
  assert (Hmain : main (Some v) cnf g = Stopped AttributeError banner).
  { destruct v; try reflexivity. destruct (Hv d). reflexivity. }
  rewrite Hmain. split; reflexivity.
Qed.

(** X5. The type check is exact: a JSON integer supplied for one of the
    float parameters ([dr_max], [db_max], [pressure]) stops the run with the
    assertion error naming the key, as does a JSON boolean or float supplied
    for one of the integer parameters ([nblock], [nstep]). *)
Theorem number_kinds_are_not_mixed (pre post : list (string * json))
  (key : string) (val : json) (cnf : Z * R * positions) (g : rng) :
  Forall (fun item => offending item = false) pre ->
  (In key [ "dr_max"; "db_max"; "pressure" ]%string /\ type val = int_t)
  \/ (In key [ "nblock"; "nstep" ]%string
      /\ (type val = bool_t \/ type val = float_t)) ->
  main (Some (JDict (pre ++ (key, val) :: post))) cnf g =
    Stopped (AssertionError (String.append key " has the wrong type"))
      (banner ++ warnings pre).
Proof.
  intros Hpre Hkey.
  apply (main_stops_at_offender pre post key val cnf g Hpre).
  unfold offending. cbn [fst snd].
  destruct Hkey as [[Hin Hty] | [Hin Hty]].
  - rewrite Hty. simpl in Hin.
    destruct Hin as [<- | [<- | [<- | []]]]; reflexivity.
  - simpl in Hin.
    destruct Hin as [<- | [<- | []]]; destruct Hty as [-> | ->]; reflexivity.
Qed.

(** X6. When the key check passes, every parameter has the supplied value if
    its key was supplied and the default of line 87 otherwise; unrecognized
    keys have no influence on the parameters. *)
Theorem parameters_default (items : list (string * json)) :
  Forall (fun item => offending item = false) items ->
  exists p : params,
    read_parameters (Some (JDict items)) [] = (Ok p, banner ++ warnings items)
    /\ nblock p = match dict_get "nblock" items with
                  | Some (JInt z) => z | _ => 10%Z end
    /\ nstep p = match dict_get "nstep" items with
                 | Some (JInt z) => z | _ => 1000%Z end
    /\ dr_max p = match dict_get "dr_max" items with
                  | Some (JFloat x) => x | _ => 0.15 end
    /\ db_max p = match dict_get "db_max" items with
                  | Some (JFloat x) => x | _ => 0.005 end
    /\ pressure p = match dict_get "pressure" items with
                    | Some (JFloat x) => x | _ => 4.0 end
    /\ fast p = match dict_get "fast" items with
                | Some (JBool b) => b | _ => true end.
Proof.
  intros Hitems. exists (settings items).
  split; [apply read_parameters_passes, Hitems |].
  assert (Hty : forall key d v,
            dict_get key defaults = Some d -> dict_get key items = Some v ->
            type v = type d).
  { intros key d v Hd Hv.
    destruct (settings_typed items key d Hitems Hd) as (v' & Hset & Hty).
    unfold setting in Hset. rewrite Hv in Hset. congruence. }
  unfold settings, int_setting, float_setting, bool_setting, setting. simpl.
  repeat split.
  - destruct (dict_get "nblock" items) as [v |] eqn:Hv; [| reflexivity].
    pose proof (Hty "nblock"%string _ v eq_refl Hv) as T.
    destruct v; try discriminate T. reflexivity.
  - destruct (dict_get "nstep" items) as [v |] eqn:Hv; [| reflexivity].
    pose proof (Hty "nstep"%string _ v eq_refl Hv) as T.
    destruct v; try discriminate T. reflexivity.
  - destruct (dict_get "dr_max" items) as [v |] eqn:Hv; [| reflexivity].
    pose proof (Hty "dr_max"%string _ v eq_refl Hv) as T.
    destruct v; try discriminate T. reflexivity.
  - destruct (dict_get "db_max" items) as [v |] eqn:Hv; [| reflexivity].
    pose proof (Hty "db_max"%string _ v eq_refl Hv) as T.
    destruct v; try discriminate T. reflexivity.
  - destruct (dict_get "pressure" items) as [v |] eqn:Hv; [| reflexivity].
    pose proof (Hty "pressure"%string _ v eq_refl Hv) as T.
    destruct v; try discriminate T. reflexivity.
  - destruct (dict_get "fast" items) as [v |] eqn:Hv; [| reflexivity].
    pose proof (Hty "fast"%string _ v eq_refl Hv) as T.
    destruct v; try discriminate T. reflexivity.
Qed.

(** ** Further properties: the sweep *)

Lemma for_each_app {S A : Type} (xs ys : list A) (body : A -> M S unit) (s : S) :
  for_each (xs ++ ys) body s =
    match for_each xs body s with
    | (Ok _, s') => for_each ys body s'
    | (Raise e, s') => (Raise e, s')
    end.
Proof.
  revert s. induction xs as [| x xs IH]; intros s; [reflexivity |].
  simpl. unfold bind. destruct (body x s) as [[[] | e] s']; [apply IH | reflexivity].
Qed.

(** Trial moves over valid rows return; the move counter grows by at most
    one per trial, the box is untouched. *)
Lemma for_each_move_atom_counts (p : params) (l : list nat) :
  forall w : world,
    Forall (fun i => (i < length (r w))%nat) l ->
    exists w1 : world,
      for_each l (move_atom p) w = (Ok tt, w1)
      /\ length (r w1) = length (r w) /\ n w1 = n w /\ box w1 = box w
      /\ (moves w <= moves w1 <= moves w + Z.of_nat (length l))%Z.
Proof.
  induction l as [| i l IH]; intros w Hl.
  - exists w. repeat split; simpl; lia.
  - apply Forall_cons_1 in Hl as [Hi Hl].
    cbn [for_each]. unfold bind. rewrite move_atom_equation.
    destruct (lookup_lt_is_Some_2 _ _ Hi) as [old Hold]. rewrite Hold.
    cbv zeta.
    destruct (same_configuration_at_test p i old w) as (Hn & Hb & Hr).
    assert (Hm : moves (at_test p i old w) = moves w).
    { unfold at_test. destruct (random_translate_vector _ _ _). reflexivity. }
    destruct (overlap_1 _ _ _ _).
    + destruct (IH (at_test p i old w)) as (w1 & Hrun & Hlen & Hn1 & Hb1 & Hm1).
      { rewrite Hr. exact Hl. }
      exists w1. rewrite Hrun, Hlen, Hn1, Hb1, Hr, Hn, Hb.
      rewrite Hm in Hm1. repeat split; simpl length; lia.
    + match goal with
      | |- context [for_each l _ ?w0] =>
          destruct (IH w0) as (w1 & Hrun & Hlen & Hn1 & Hb1 & Hm1)
      end.
      { simpl. rewrite length_insert. exact Hl. }
      exists w1. rewrite Hrun, Hlen, Hn1, Hb1. simpl in *.
      rewrite length_insert, Hn, Hb. repeat split; lia.
Qed.

Lemma indices_valid (w : world) :
  (Z.to_nat (n w) <= length (r w))%nat ->
  Forall (fun i => (i < length (r w))%nat) (indices (n w)).
Proof.
  intros Hrows. apply Forall_forall. intros i Hi.
  apply list_elem_of_In in Hi. unfold indices in Hi.
  apply in_seq in Hi. lia.
Qed.

(** X7. On a well-formed world the sweep returns with a move counter between
    0 and the number of atoms, so that the move ratio it binds lies between 0
    and 1; the box length is the one before the sweep. *)
Theorem move_ratio_is_a_fraction (p : params) (w : world) :
  well_formed w ->
  exists (w1 : world) (m : R),
    sweep p w = (Ok tt, w1)
    /\ m_ratio w1 = Some m /\ m = IZR (moves w1) / IZR (n w)
    /\ (0 <= moves w1 <= Z.max 0 (n w))%Z
    /\ 0 <= m <= 1.
Proof.
  intros [Hrows Hn].
  destruct (for_each_move_atom_counts p (indices (n w)) (set_moves 0 w))
    as (w1 & Hrun & _ & Hn1 & _ & Hm1).
  { apply (indices_valid (set_moves 0 w)). exact Hrows. }
  simpl in Hn1, Hm1. unfold indices in Hm1. rewrite length_seq in Hm1.
  unfold sweep. unfold bind at 1. unfold modify at 1.
  unfold bind at 1. unfold gets at 1. unfold bind at 1.
  change (n (set_moves 0 w)) with (n w). rewrite Hrun.
  unfold bind, gets, int_true_div, modify, ret.
  pose proof Hn as Hn'. apply Z.eqb_neq in Hn'. rewrite Hn'. simpl.
  eexists. eexists. split; [reflexivity |].
  split; [reflexivity |]. split; [reflexivity |].
  cbn [moves set_m_ratio]. split; [lia |].
  destruct (Z_lt_le_dec (n w) 0) as [Hneg | Hpos].
  - assert (H0 : moves w1 = 0%Z) by lia. rewrite H0.
    unfold Rdiv. rewrite Rmult_0_l. lra.
  - assert (Hnpos : (0 < n w)%Z) by lia.
    assert (HR : 0 < IZR (n w)) by (apply IZR_lt, Hnpos).
    assert (Hlo : 0 <= IZR (moves w1)) by (apply IZR_le; lia).
    assert (Hhi : IZR (moves w1) <= IZR (n w)) by (apply IZR_le; lia).
    split.
    + apply Rmult_le_reg_r with (IZR (n w)); [exact HR |].
      unfold Rdiv. rewrite Rmult_assoc, Rinv_l by lra. lra.
    + apply Rmult_le_reg_r with (IZR (n w)); [exact HR |].
      unfold Rdiv. rewrite Rmult_assoc, Rinv_l by lra. lra.
Qed.

(** X8. With no atoms ([n = 0]) the sweep makes no trial move and then
    raises [ZeroDivisionError] at [moves / n]; the step ends there, before
    the volume move: no random number is drawn and nothing is logged. *)
Theorem empty_configuration_raises (p : params) (w : world) :
  n w = 0%Z ->
  sweep p w = (Raise ZeroDivisionError, set_moves 0 w)
  /\ step p w = (Raise ZeroDivisionError, set_moves 0 w).
Proof.
  intros Hn.
  assert (Hsweep : sweep p w = (Raise ZeroDivisionError, set_moves 0 w)).
  { unfold sweep, bind, modify, gets, indices, int_true_div. simpl.
    rewrite Hn. reflexivity. }
  split; [exact Hsweep |].
  unfold step. unfold bind at 1. rewrite Hsweep. reflexivity.
Qed.

Lemma trials_app (a b : list event) : trials (a ++ b) = trials a ++ trials b.
Proof. unfold trials. apply flat_map_app. Qed.

Lemma accepted_app (a b : list event) :
  accepted (a ++ b) = (accepted a + accepted b)%Z.
Proof.
  unfold accepted. rewrite trials_app, List.filter_app, length_app. lia.
Qed.

(** What one trial adds to the log: the draw and the test. *)
Lemma at_test_trail (p : params) (i : nat) (old : vec) (w : world) :
  let new := fst (random_translate_vector (dr_max p / box w) old (gen w)) in
  let ov := overlap_1 (fast p) (periodic new) (box w) (delete i (r w)) in
  exists trail : list event,
    log (at_test p i old w) = log w ++ trail /\ trials trail = [ ov ].
Proof.
  cbv zeta. unfold at_test.
  destruct (random_translate_vector _ old (gen w)) as [v g]. simpl.
  eexists. split; [rewrite <- app_assoc; reflexivity | reflexivity].
Qed.

(** Trial moves over valid rows: one overlap test per row, and the move
    counter grows by the number of tests that report no overlap; if there is
    none the array is as before. *)
Lemma for_each_move_atom_trail (p : params) (l : list nat) :
  forall w : world,
    Forall (fun i => (i < length (r w))%nat) l ->
    exists (w1 : world) (trail : list event),
      for_each l (move_atom p) w = (Ok tt, w1)
      /\ log w1 = log w ++ trail
      /\ length (trials trail) = length l
      /\ moves w1 = (moves w + accepted trail)%Z
      /\ (accepted trail = 0%Z -> r w1 = r w)
      /\ length (r w1) = length (r w).
Proof.
  induction l as [| i l IH]; intros w Hl.
  - exists w, []. rewrite app_nil_r. repeat split. unfold accepted. simpl. lia.
  - apply Forall_cons_1 in Hl as [Hi Hl].
    cbn [for_each]. unfold bind. rewrite move_atom_equation.
    destruct (lookup_lt_is_Some_2 _ _ Hi) as [old Hold]. rewrite Hold.
    cbv zeta.
    destruct (at_test_trail p i old w) as (t1 & Hlog1 & Ht1).
    destruct (same_configuration_at_test p i old w) as (_ & _ & Hr).
    assert (Hm : moves (at_test p i old w) = moves w).
    { unfold at_test. destruct (random_translate_vector _ _ _). reflexivity. }
    destruct (overlap_1 _ _ _ _).
    + destruct (IH (at_test p i old w))
        as (w1 & t2 & Hrun & Hlog & Hlen & Hmoves & Hsame & Hrows).
      { rewrite Hr. exact Hl. }
      exists w1, (t1 ++ t2). rewrite Hrun. split; [reflexivity |].
      assert (Ha1 : accepted t1 = 0%Z) by (unfold accepted; rewrite Ht1; reflexivity).
      split; [rewrite Hlog, Hlog1, app_assoc; reflexivity |].
      split; [rewrite trials_app, length_app, Ht1, Hlen; reflexivity |].
      split; [rewrite accepted_app, Hmoves, Hm; lia |].
      split; [| rewrite Hrows, Hr; reflexivity].
      rewrite accepted_app. intros H0. rewrite Ha1 in H0.
      rewrite Hsame by lia. exact Hr.
    + match goal with
      | |- context [for_each l _ ?w0] =>
          destruct (IH w0)
            as (w1 & t2 & Hrun & Hlog & Hlen & Hmoves & Hsame & Hrows)
      end.
      { simpl. rewrite length_insert. exact Hl. }
      exists w1, (t1 ++ t2). rewrite Hrun. split; [reflexivity |].
      assert (Ha1 : accepted t1 = 1%Z) by (unfold accepted; rewrite Ht1; reflexivity).
      change (log (set_moves _ _)) with (log (at_test p i old w)) in Hlog.
      change (moves (set_moves _ _)) with (moves w + 1)%Z in Hmoves.
      simpl in Hrows. rewrite length_insert in Hrows.
      split; [rewrite Hlog, Hlog1, app_assoc; reflexivity |].
      split; [rewrite trials_app, length_app, Ht1, Hlen; reflexivity |].
      split; [rewrite accepted_app, Hmoves; lia |].
      split; [| exact Hrows].
      rewrite accepted_app. intros H0. exfalso. rewrite Ha1 in H0.
      unfold accepted in H0. lia.
Qed.

(** X9. When [n] exceeds the number of rows of the array, the sweep first
    makes the trial move of every row there is, in order (one overlap test
    per row), and then raises [IndexError] at [r[i,:]] in the world these
    trials left; the step raises with it, there. *)
Theorem missing_rows_raise (p : params) (w : world) :
  (length (r w) < Z.to_nat (n w))%nat ->
  exists (w1 : world) (trail : list event),
    for_each (seq 0 (length (r w))) (move_atom p) (set_moves 0 w) = (Ok tt, w1)
    /\ log w1 = log w ++ trail
    /\ length (trials trail) = length (r w)
    /\ sweep p w = (Raise IndexError, w1)
    /\ step p w = (Raise IndexError, w1).
Proof.
  intros Hrows.
  destruct (for_each_move_atom_trail p (seq 0 (length (r w))) (set_moves 0 w))
    as (w1 & trail & Hrun & Hlog & Hlen & _ & _ & Hsize).
  { apply Forall_forall. intros i Hi. apply list_elem_of_In in Hi.
    apply in_seq in Hi. simpl. lia. }
  rewrite length_seq in Hlen. simpl in Hlog, Hsize.
  assert (Hsweep : sweep p w = (Raise IndexError, w1)).
  { unfold sweep. unfold bind at 1. unfold modify at 1.
    unfold bind at 1. unfold gets at 1. unfold bind at 1.
    change (n (set_moves 0 w)) with (n w).
    unfold indices.
    replace (Z.to_nat (n w))
      with (length (r w) + S (Z.to_nat (n w) - S (length (r w))))%nat by lia.
    rewrite seq_app, for_each_app, Hrun.
    cbn [seq for_each Nat.add]. unfold bind at 1.
    rewrite move_atom_equation.
    rewrite (lookup_ge_None_2 (r w1) (length (r w))) by (rewrite Hsize; lia).
    reflexivity. }
  exists w1, trail. repeat split; try assumption.
  unfold step. unfold bind at 1. rewrite Hsweep. reflexivity.
Qed.

(** X10. The move counter counts the accepted trials.  On a well-formed
    world the sweep returns after exactly one overlap test per atom; the
    move counter is the number of tests that reported no overlap and the
    move ratio that number over [n]; if every test reported an overlap the
    position array is as before. *)
Theorem moves_count_accepted_trials (p : params) (w : world) :
  well_formed w ->
  exists (w1 : world) (trail : list event),
    sweep p w = (Ok tt, w1)
    /\ log w1 = log w ++ trail
    /\ length (trials trail) = Z.to_nat (n w)
    /\ moves w1 = accepted trail
    /\ m_ratio w1 = Some (IZR (accepted trail) / IZR (n w))
    /\ (accepted trail = 0%Z -> r w1 = r w).
Proof.
  intros [Hrows Hn].
  destruct (for_each_move_atom_trail p (indices (n w)) (set_moves 0 w))
    as (w1 & trail & Hrun & Hlog & Hlen & Hmoves & Hsame & _).
  { apply (indices_valid (set_moves 0 w)). exact Hrows. }
  unfold indices in Hlen. rewrite length_seq in Hlen.
  simpl in Hlog, Hmoves, Hsame.
  unfold sweep. unfold bind at 1. unfold modify at 1.
  unfold bind at 1. unfold gets at 1. unfold bind at 1.
  change (n (set_moves 0 w)) with (n w). rewrite Hrun.
  unfold bind, gets, int_true_div, modify, ret.
  pose proof Hn as Hn'. apply Z.eqb_neq in Hn'. rewrite Hn'.
  eexists. exists trail. split; [reflexivity |]. simpl.
  rewrite Hmoves. repeat split; try assumption.
Qed.

(** X11. The sweep updates in place: when the trial move of atom [i] is
    accepted, the overlap test of a later atom [j] is made against the array
    that already holds the new position of [i], and with the generator state
    the first trial left. *)
Theorem later_atoms_see_the_update (p : params) (i j : nat) (w : world)
  (old_i old_j : vec) :
  i <> j -> r w !! i = Some old_i -> r w !! j = Some old_j ->
  let t1 := random_translate_vector (dr_max p / box w) old_i (gen w) in
  let ri := periodic (fst t1) in
  let t2 := random_translate_vector (dr_max p / box w) old_j (snd t1) in
  let rj := periodic (fst t2) in
  let others := delete j (<[i := ri]> (r w)) in
  overlap_1 (fast p) ri (box w) (delete i (r w)) = false ->
  exists w' : world,
    (move_atom p i ;; move_atom p j) w = (Ok tt, w')
    /\ log w' =
         log w ++ [ ERandomTranslate (dr_max p / box w) old_i (fst t1);
                    EOverlap1 ri (box w) (delete i (r w)) false;
                    ERandomTranslate (dr_max p / box w) old_j (fst t2);
                    EOverlap1 rj (box w) others
                      (overlap_1 (fast p) rj (box w) others) ]
    /\ In ri others.
Proof.
  intros Hij Hi Hj t1 ri t2 rj others Hfree.
  unfold bind. rewrite move_atom_equation, Hi. cbv zeta.
  fold t1 ri. rewrite Hfree.
  rewrite move_atom_equation.
  assert (Hfirst : exists g1,
            at_test p i old_i w =
              record (EOverlap1 ri (box w) (delete i (r w)) false)
                (record (ERandomTranslate (dr_max p / box w) old_i (fst t1))
                   (set_gen g1 w)) /\ g1 = snd t1).
  { unfold at_test. subst ri. subst t1.
    destruct (random_translate_vector _ old_i (gen w)) as [v g1].
    simpl in *. rewrite Hfree. exists g1. split; reflexivity. }
  destruct Hfirst as (g1 & Htest & Hg1). rewrite Htest. clear Htest.
  cbn [r set_moves set_r record world_logged set_gen].
  rewrite list_lookup_insert_ne by exact Hij. rewrite Hj. cbv zeta.
  cbn [box moves gen set_moves set_r record world_logged set_gen].
  unfold at_test.
  cbn [box moves gen r set_moves set_r record world_logged set_gen].
  rewrite Hg1. fold t2.
  assert (Hin : In ri others).
  { apply list_elem_of_In, list_elem_of_lookup.
    pose proof (lookup_lt_Some _ _ _ Hi) as Hlen.
    destruct (Nat.lt_ge_cases i j) as [Hlt | Hge].
    - exists i. unfold others.
      rewrite list_lookup_delete_lt by exact Hlt.
      apply list_lookup_insert_eq. exact Hlen.
    - exists (pred i). unfold others.
      rewrite list_lookup_delete_ge by lia.
      replace (S (pred i)) with i by lia.
      apply list_lookup_insert_eq. exact Hlen. }
  destruct t2 as [v2 g2] eqn:Ht2. simpl fst in *.
  fold ri. fold others. subst rj.
  destruct (overlap_1 (fast p) (periodic v2) (box w) others);
    eexists; (split; [reflexivity |]); simpl;
    (split; [rewrite <- !app_assoc; reflexivity | exact Hin]).
Qed.

(** ** Further properties: the volume move *)

Lemma exp_monotone (x y : R) : x <= y -> exp x <= exp y.
Proof.
  intros [Hlt | ->]; [left; apply exp_increasing, Hlt | right; reflexivity].
Qed.

(** X12. One volume move changes the box length by a factor of at most
    [exp db_max] either way: for a positive box length, a non-negative
    [db_max] and a random number in [0,1), the new box length lies between
    [box * exp (- db_max)] and [box * exp db_max]. *)
Theorem box_changes_by_bounded_factor (p : params) (w : world) :
  0 < box w -> 0 <= db_max p ->
  0 <= fst (np_random_rand (gen w)) < 1 ->
  box w * exp (- db_max p) <= box (snd (volume_move p w))
    <= box w * exp (db_max p).
Proof.
  intros Hbox Hdb Hzeta.
  assert (Hlo : exp (- db_max p) <= 1).
  { rewrite <- exp_0. apply exp_monotone. lra. }
  assert (Hhi : 1 <= exp (db_max p)).
  { rewrite <- exp_0. apply exp_monotone. lra. }
  assert (Hsame : box w * exp (- db_max p) <= box w <= box w * exp (db_max p)).
  { split.
    - rewrite <- (Rmult_1_r (box w)) at 2.
      apply Rmult_le_compat_l; lra.
    - rewrite <- (Rmult_1_r (box w)) at 1.
      apply Rmult_le_compat_l; lra. }
  rewrite volume_move_equation. cbv zeta.
  destruct (same_configuration_at_gate p w) as (_ & Hb & _).
  destruct (overlap _ _ _); simpl; [rewrite Hb; exact Hsame |].
  destruct (metropolis _ _) as [accept g'].
  destruct accept; simpl; [| rewrite Hb; exact Hsame].
  set (zeta := fst (np_random_rand (gen w))) in *.
  split; apply Rmult_le_compat_l; try lra; apply exp_monotone; nra.
Qed.

(** X13. When the gate passes but [metropolis] answers no, the volume move
    is rejected after the one call of [metropolis]: the box length, the
    positions and the particle count are unchanged and the volume counter is
    0.0. *)
Theorem metropolis_rejection (p : params) (w : world) :
  let zeta := 2 * fst (np_random_rand (gen w)) - 1 in
  let box_scale := exp (zeta * db_max p) in
  let box_new := box w * box_scale in
  let delta :=
    pressure p * (box_new ^ 3 - box w ^ 3)
    + (IZR (n w) + 1) * ln (/ box_scale ^ 3) in
  overlap (fast p) box_new (r w) = false ->
  fst (metropolis delta (snd (np_random_rand (gen w)))) = false ->
  exists w' : world,
    volume_move p w = (Ok tt, w')
    /\ log w' = log w ++ [ ERand (fst (np_random_rand (gen w)));
                           EOverlap box_new (r w) false;
                           EMetropolis delta false ]
    /\ box w' = box w /\ r w' = r w /\ n w' = n w
    /\ v_ratio w' = Some 0.
Proof.
  intros zeta box_scale box_new delta Hgate Hreject.
  change delta with (delta_of p w) in *.
  rewrite volume_move_equation. fold zeta box_scale box_new. rewrite Hgate.
  unfold at_gate. subst zeta box_scale box_new.
  destruct (np_random_rand (gen w)) as [z g]. simpl fst in *. simpl snd in *.
  rewrite Hgate. simpl gen.
  destruct (metropolis (delta_of p w) g) as [accept g']. simpl in Hreject.
  subst accept.
  eexists. split; [reflexivity |]. simpl.
  repeat split. rewrite <- !app_assoc. reflexivity.
Qed.

(** ** Further properties: the run *)

(** X14. If the configuration read overlaps, the run stops at line 124 with
    the assertion error 'Overlap in initial configuration': after the echo
    of [n] and [box] there is the one call of [overlap] and nothing else, no
    file is written and no random number drawn. *)
Theorem initial_overlap_stops (p : params) (w : world) :
  let r0 := map periodic (divide_by (box w) (r w)) in
  overlap (fast p) (box w) r0 = true ->
  exists w' : world,
    simulation p w =
      (Raise (AssertionError "Overlap in initial configuration"), w')
    /\ log w' = log w ++ [ EFormatD "Number of particles" (n w);
                           EFormatF "Box length" (box w);
                           EOverlap (box w) r0 true ]
    /\ written (log w') = written (log w)
    /\ gen w' = gen w.
Proof.
  intros r0 Hov.
  unfold simulation. unfold bind at 1. rewrite to_box_units_equation.
  unfold bind at 1.
  unfold check_overlap, call_overlap, bind, gets, emit, modify, ret, assert.
  cbn [box r set_r record world_logged]. fold r0. rewrite Hov. cbn [negb].
  eexists. split; [reflexivity |]. simpl. repeat split.
  - rewrite <- !app_assoc. reflexivity.
  - unfold written. rewrite !flat_map_app. simpl. rewrite !app_nil_r.
    reflexivity.
Qed.

Lemma invariant_shape (n0 : Z) (k : nat) :
  invariant (fun w => n w = n0 /\ length (r w) = k).
Proof.
  split.
  - intros w w' (Hn & _ & Hr) Hw. rewrite Hn, Hr. exact Hw.
  - intros w i v [Hn Hr]. simpl. rewrite length_insert. auto.
  - intros w z Hw. exact Hw.
Qed.

(** X15. The particle count and the number of rows of the position array
    never change: not in a step, not in a block, not over the whole run,
    however it ends. *)
Theorem shape_is_constant (p : params) (w : world) :
  (n (snd (step p w)) = n w /\ length (r (snd (step p w))) = length (r w))
  /\ (forall blk : Z,
        n (snd (block p blk w)) = n w
        /\ length (r (snd (block p blk w))) = length (r w))
  /\ (n (snd (simulation p w)) = n w
      /\ length (r (snd (simulation p w))) = length (r w)).
Proof.
  pose proof (invariant_shape (n w) (length (r w))) as HI.
  split; [| split].
  - apply (preserves_step _ p HI). auto.
  - intros blk. apply (preserves_block _ p blk HI). auto.
  - apply (simulation_keeps _ p w HI).
    rewrite to_box_units_equation. simpl.
    unfold divide_by. rewrite !length_map. auto.
Qed.

Lemma range_empty (lo hi : Z) : (hi <= lo)%Z -> range lo hi = [].
Proof.
  intros H. unfold range.
  replace (Z.to_nat (hi - lo)) with 0%nat by lia. reflexivity.
Qed.

Lemma bookkeeping_for_each {A : Type} (xs : list A) (body : A -> M world unit) :
  (forall x, bookkeeping (body x)) -> bookkeeping (for_each xs body).
Proof.
  intros Hbody. induction xs as [| x xs IH]; simpl.
  - apply bookkeeping_ret.
  - apply bookkeeping_bind; [apply Hbody | intros _; exact IH].
Qed.

(** X16. A run without steps leaves the configuration alone: when [nblock]
    or [nstep] is zero or negative, box length, particle count and positions
    at the end of the run are those right after the conversion to box units
    (the blocks, if any, only write their snapshots). *)
Theorem run_without_steps (p : params) (w : world) :
  (nblock p <= 0)%Z \/ (nstep p <= 0)%Z ->
  same_configuration (snd (to_box_units w)) (snd (simulation p w)).
Proof.
  intros Hnone.
  assert (Hblocks : bookkeeping (for_each (range 1 (nblock p + 1)) (block p))).
  { destruct Hnone as [Hb | Hs].
    - rewrite range_empty by lia. apply bookkeeping_ret.
    - apply bookkeeping_for_each. intros blk. unfold block.
      rewrite range_empty by lia. cbn [for_each]. bookkeep. }
  unfold simulation. unfold bind at 1.
  destruct (to_box_units w) as [[[] | e] w0] eqn:Hstart;
    [| rewrite to_box_units_equation in Hstart; discriminate].
  cbn [snd].
  match goal with
  | |- same_configuration w0 (snd (?c w0)) =>
      assert (Hrest : bookkeeping c); [| apply Hrest]
  end.
  bookkeep.
  all: apply bookkeeping_emit.
Qed.

(** ** Further properties: the files of a run *)

Lemma written_app (a b : list event) : written (a ++ b) = written a ++ written b.
Proof. unfold written. apply flat_map_app. Qed.

Lemma silent_bind {A B : Type} (c : M world A) (k : A -> M world B) :
  silent c -> (forall a, silent (k a)) -> silent (bind c k).
Proof.
  intros Hc Hk w. unfold bind. specialize (Hc w).
  destruct (c w) as [[a | e] w']; simpl in *.
  - rewrite Hk. exact Hc.
  - exact Hc.
Qed.

Lemma silent_for_each {A : Type} (xs : list A) (body : A -> M world unit) :
  (forall x, silent (body x)) -> silent (for_each xs body).
Proof.
  intros Hbody. induction xs as [| x xs IH]; simpl.
  - intros w. reflexivity.
  - apply silent_bind; [apply Hbody | intros _; exact IH].
Qed.

(** A statement that leaves the log alone. *)
Lemma silent_still {A : Type} (c : M world A) :
  (forall w, log (snd (c w)) = log w) -> silent c.
Proof. intros Hc w. rewrite Hc. reflexivity. Qed.

(** A call other than [write_cnf_atoms]. *)
Lemma silent_emit (e : event) : written [e] = [] -> silent (emit e).
Proof.
  intros He w. unfold emit, modify. simpl.
  rewrite written_app, He. apply app_nil_r.
Qed.

Lemma silent_call_rand : silent call_rand.
Proof.
  intros w. unfold call_rand. destruct (np_random_rand (gen w)). simpl.
  rewrite written_app. apply app_nil_r.
Qed.

Lemma silent_call_random_translate_vector (dr : R) (old : vec) :
  silent (call_random_translate_vector dr old).
Proof.
  intros w. unfold call_random_translate_vector.
  destruct (random_translate_vector dr old (gen w)). simpl.
  rewrite written_app. apply app_nil_r.
Qed.

Lemma silent_call_metropolis (delta : R) : silent (call_metropolis delta).
Proof.
  intros w. unfold call_metropolis. destruct (metropolis delta (gen w)). simpl.
  rewrite written_app. apply app_nil_r.
Qed.

(** Decompose a sequence of statements none of which writes a file. *)
Ltac hush :=
  repeat match goal with
    | |- silent (bind _ _) => apply silent_bind; [| intros ?]
    | |- silent (for_each _ _) => apply silent_for_each; intros ?
    | |- silent (emit _) => apply silent_emit; reflexivity
    | |- silent (print _) => apply silent_emit; reflexivity
    | |- silent call_rand => apply silent_call_rand
    | |- silent (call_random_translate_vector _ _) =>
        apply silent_call_random_translate_vector
    | |- silent (call_metropolis _) => apply silent_call_metropolis
    | |- silent (match ?x with _ => _ end) => destruct x; cbv iota
    | |- silent (row ?rs ?i) => unfold row
    | |- silent (np_delete _ _) => unfold np_delete
    | |- silent (int_true_div _ _) => unfold int_true_div
    | |- silent (read ?f) =>
        apply silent_still; intros ?; unfold read; destruct (f _); reflexivity
    | |- silent (assert ?b _) => unfold assert
    | |- silent (ret _) => apply silent_still; intros ?; reflexivity
    | |- silent (raise _) => apply silent_still; intros ?; reflexivity
    | |- silent (gets _) => apply silent_still; intros ?; reflexivity
    | |- silent (modify _) => apply silent_still; intros ?; reflexivity
    end.

Lemma silent_move_atom (p : params) (i : nat) : silent (move_atom p i).
Proof. unfold move_atom, call_overlap_1. hush. Qed.

Lemma silent_volume_move (p : params) : silent (volume_move p).
Proof. unfold volume_move, call_overlap. hush. Qed.

Lemma silent_calculate (string : option String.string) :
  silent (calculate string).
Proof. unfold calculate, cube, int_over_float. hush. Qed.

Lemma silent_check_overlap (p : params) (msg : string) :
  silent (check_overlap p msg).
Proof. unfold check_overlap, call_overlap. hush. Qed.

Lemma silent_step (p : params) : silent (step p).
Proof.
  unfold step, sweep, observe.
  pose proof (silent_move_atom p). pose proof (silent_volume_move p).
  pose proof (silent_calculate None).
  repeat match goal with
    | |- silent (bind _ _) => apply silent_bind; [| intros ?]
    | |- silent (for_each _ _) => apply silent_for_each; intros ?
    | |- silent (move_atom _ _) => auto
    | |- silent (volume_move _) => auto
    | |- silent (calculate _) => auto
    end; hush.
Qed.

Lemma silent_to_box_units : silent to_box_units.
Proof.
  intros w. rewrite to_box_units_equation. simpl.
  rewrite !written_app. simpl. rewrite !app_nil_r. reflexivity.
Qed.

Lemma block_equation (p : params) (blk : Z) (w : world) :
  block p blk w =
    match for_each (range 0 (nstep p)) (fun _ => step p) (record EBlkBegin w) with
    | (Ok _, w1) => checkpoint blk w1
    | (Raise e, w1) => (Raise e, w1)
    end.
Proof. reflexivity. Qed.

(** What a block adds to the files: its snapshot when its steps return,
    nothing when one of them raises. *)
Lemma block_files (p : params) (blk : Z) (w : world) :
  written (log (snd (block p blk w))) =
    written (log w)
    ++ match fst (block p blk w) with
       | Ok _ =>
           let w' := snd (block p blk w) in
           [ (snapshot_name blk, n w', box w', times (box w') (r w')) ]
       | Raise _ => []
       end.
Proof.
  rewrite block_equation.
  pose proof (silent_for_each (range 0 (nstep p)) (fun _ => step p)
                (fun _ => silent_step p) (record EBlkBegin w)) as Hsteps.
  destruct (for_each (range 0 (nstep p)) (fun _ : Z => step p)
              (record EBlkBegin w)) as [[[] | e] w1]; cbn [fst snd] in *.
  - rewrite checkpoint_equation. cbn [fst snd]. cbv zeta.
    cbn [log n box r record world_logged set_sav_tag].
    rewrite !written_app, Hsteps. cbn [log record world_logged].
    rewrite written_app. simpl written. rewrite !app_nil_r. reflexivity.
  - rewrite Hsteps. cbn [log record world_logged].
    rewrite written_app. simpl written. rewrite !app_nil_r. reflexivity.
Qed.

Lemma written_names_app (a b : list event) :
  written_names (a ++ b) = written_names a ++ written_names b.
Proof. unfold written_names. rewrite written_app. apply map_app. Qed.

(** The snapshots of a sequence of blocks: all of them in order when every
    block returns, those before the failing block otherwise. *)
Lemma blocks_files (p : params) (l : list Z) :
  forall w : world,
    exists done rest : list Z,
      l = done ++ rest
      /\ map (fun f => fst (fst (fst f)))
           (written (log (snd (for_each l (block p) w)))) =
           map (fun f => fst (fst (fst f))) (written (log w))
           ++ map snapshot_name done
      /\ match fst (for_each l (block p) w) with
         | Ok _ => rest = []
         | Raise _ => rest <> []
         end.
Proof.
  induction l as [| blk l IH]; intros w.
  - exists [], []. simpl. rewrite app_nil_r. repeat split.
  - cbn [for_each]. unfold bind.
    pose proof (block_files p blk w) as Hblk.
    destruct (block p blk w) as [[[] | e] w1]; cbn [fst snd] in *.
    + destruct (IH w1) as (done & rest & -> & Hnames & Hres).
      exists (blk :: done), rest. split; [reflexivity |].
      split; [| exact Hres].
      rewrite Hnames, Hblk, map_app. simpl. rewrite <- app_assoc. reflexivity.
    + exists [], (blk :: l). split; [reflexivity |].
      split; [| discriminate].
      rewrite Hblk. simpl. rewrite !app_nil_r. reflexivity.
Qed.

(** One statement [c] of a sequence in hypothesis [H], where [c] writes no
    file (lemma [Hc]): case analysis on how [c] ends. *)
Ltac quiet_statement H Hc Hs :=
  unfold bind at 1 in H;
  match type of H with
  | match ?c ?w0 with _ => _ end = _ =>
      pose proof (Hc w0) as Hs;
      destruct (c w0) as [[? | ?] ?]; cbn [snd] in Hs
  end.

(** X17. The files of a run.  A run that returns has written the snapshots
    of the blocks 1 to [nblock], in this order, and then [cnf.out], and no
    other file; a run that raises has written the snapshots of the blocks
    completed before and not [cnf.out]. *)
Theorem files_of_a_run (p : params) (w : world) :
  let names := written_names (log (snd (simulation p w))) in
  let blocks := range 1 (nblock p + 1) in
  match fst (simulation p w) with
  | Ok _ =>
      names = written_names (log w) ++ map snapshot_name blocks ++ [ "cnf.out"%string ]
  | Raise _ =>
      exists done rest : list Z,
        blocks = done ++ rest
        /\ names = written_names (log w) ++ map snapshot_name done
  end.
Proof.
  intros names blocks. subst names. unfold written_names.
  destruct (simulation p w) as [res w'] eqn:Hsim. cbn [fst snd].
  assert (Hnone : forall w1 : world,
            written (log w1) = written (log w) ->
            exists done rest : list Z,
              blocks = done ++ rest
              /\ map (fun f => fst (fst (fst f))) (written (log w1)) =
                   map (fun f => fst (fst (fst f))) (written (log w))
                   ++ map snapshot_name done).
  { intros w1 Hw1. exists [], blocks. rewrite Hw1. simpl.
    rewrite app_nil_r. split; reflexivity. }
  assert (Hall : forall w1 : world,
            map (fun f => fst (fst (fst f))) (written (log w1)) =
              map (fun f => fst (fst (fst f))) (written (log w))
              ++ map snapshot_name blocks ->
            exists done rest : list Z,
              blocks = done ++ rest
              /\ map (fun f => fst (fst (fst f))) (written (log w1)) =
                   map (fun f => fst (fst (fst f))) (written (log w))
                   ++ map snapshot_name done).
  { intros w1 Hw1. exists blocks, []. rewrite app_nil_r. split; [reflexivity | exact Hw1]. }
  unfold simulation in Hsim. fold blocks in Hsim.
  quiet_statement Hsim silent_to_box_units H1;
    [| injection Hsim as <- <-; apply Hnone; exact H1].
  quiet_statement Hsim
    (silent_check_overlap p "Overlap in initial configuration") H2;
    [| injection Hsim as <- <-; apply Hnone; congruence].
  quiet_statement Hsim (silent_calculate (Some "Initial values"%string)) H3;
    [| injection Hsim as <- <-; apply Hnone; congruence].
  unfold bind at 1 in Hsim. unfold emit at 1, modify at 1 in Hsim.
  unfold bind at 1 in Hsim.
  match type of Hsim with
  | match for_each _ _ ?w3 with _ => _ end = _ =>
      destruct (blocks_files p blocks w3) as (done & rest & Hsplit & Hnames & Hres);
      assert (Hw3 : written (log w3) = written (log w))
        by (cbn [log record world_logged]; rewrite written_app; simpl written;
            rewrite app_nil_r; congruence);
      rewrite Hw3 in Hnames;
      destruct (for_each blocks (block p) w3) as [[[] | e] w4]
  end; cbn [fst snd] in *.
  2: { injection Hsim as <- <-. exists done, rest. split; assumption. }
  subst rest. rewrite app_nil_r in Hsplit. subst done.
  unfold bind at 1 in Hsim. unfold emit at 1, modify at 1 in Hsim.
  assert (Hw5 : map (fun f => fst (fst (fst f))) (written (log (record ERunEnd w4))) =
                map (fun f => fst (fst (fst f))) (written (log w))
                ++ map snapshot_name blocks).
  { cbn [log record world_logged]. rewrite written_app. simpl written.
    rewrite app_nil_r. exact Hnames. }
  revert Hsim Hw5. generalize (record ERunEnd w4). intros w5 Hsim Hw5.
  quiet_statement Hsim (silent_calculate (Some "Final values"%string)) H4;
    [| injection Hsim as <- <-; apply Hall; congruence].
  quiet_statement Hsim
    (silent_check_overlap p "Overlap in final configuration") H5;
    [| injection Hsim as <- <-; apply Hall; congruence].
  unfold write_cnf_atoms, bind, gets, emit, modify in Hsim.
  injection Hsim as <- <-.
  cbn [log record world_logged]. rewrite !written_app. simpl written.
  rewrite !app_nil_r, map_app. rewrite H5, H4, Hw5.
  rewrite <- app_assoc. reflexivity.
Qed.

Lemma times_in_box (b : R) (rs : list vec) :
  0 < b -> all_components in_cell rs -> all_components (in_box b) (times b rs).
Proof.
  intros Hb Hrs. unfold all_components, times.
  apply Forall_map. eapply Forall_impl; [exact Hrs |].
  intros [[x y] z] Hv. simpl in *.
  assert (Hone : forall c, in_cell c -> in_box b (c * b)).
  { unfold in_cell, in_box. intros c [Hlo Hhi]. split; nra. }
  apply Forall_cons_1 in Hv as [Hx Hv].
  apply Forall_cons_1 in Hv as [Hy Hv].
  apply Forall_cons_1 in Hv as [Hz _].
  repeat (apply Forall_cons_2; [apply Hone; assumption |]).
  apply Forall_nil_2.
Qed.

Lemma invariant_cell_and_box (n0 : Z) :
  invariant (fun w => all_components in_cell (r w) /\ 0 < box w /\ n w = n0).
Proof.
  split.
  - intros w w' (Hn & Hb & Hr) Hw. rewrite Hn, Hb, Hr. exact Hw.
  - intros w i v (Hr & Hb & Hn). simpl.
    split; [apply insert_periodic_in_cell, Hr | auto].
  - intros w z (Hr & Hb & Hn). simpl. repeat split; try assumption.
    apply Rmult_lt_0_compat; [exact Hb | apply exp_pos].
Qed.

Lemma preserves_sound {A : Type} (n0 : Z) (c : M world A) :
  preserves (fun w => all_components in_cell (r w) /\ 0 < box w /\ n w = n0) c ->
  silent c -> preserves (sound n0) c.
Proof.
  intros Hc Hs w [Hconf Hfiles]. split; [apply Hc, Hconf |].
  rewrite Hs. exact Hfiles.
Qed.

Lemma preserves_sound_write (n0 : Z) (tag : string) :
  preserves (sound n0) (write_cnf_atoms tag).
Proof.
  intros w [(Hr & Hb & Hn) Hfiles].
  unfold write_cnf_atoms, bind, gets, emit, modify.
  cbn [snd]. unfold sound. cbn [log n box r record world_logged].
  split; [repeat split; assumption |].
  rewrite written_app. apply Forall_app. split; [exact Hfiles |].
  simpl. apply Forall_cons_2; [| apply Forall_nil_2].
  repeat split; try assumption. apply times_in_box; assumption.
Qed.

(** Statements that neither touch the configuration nor write a file. *)
Ltac keep_sound :=
  repeat match goal with
    | |- preserves (sound _) (write_cnf_atoms _) => apply preserves_sound_write
    | |- preserves (sound _) (bind _ _) => apply preserves_bind; [| intros ?]
    | |- preserves (sound _) (for_each _ _) => apply preserves_for_each; intros ?
    | |- preserves (sound ?n0) _ =>
        apply preserves_sound;
        [ apply bookkeeping_preserves;
          [apply invariant_cell_and_box | solve [auto with script]]
        | first [ apply silent_calculate | apply silent_check_overlap | hush ] ]
    end.

Lemma preserves_sound_block (n0 : Z) (p : params) (blk : Z) :
  preserves (sound n0) (block p blk).
Proof.
  unfold block.
  apply preserves_bind; [keep_sound | intros _].
  apply preserves_bind; [| intros _; unfold checkpoint; keep_sound].
  apply preserves_for_each. intros _.
  apply preserves_sound;
    [apply preserves_step, invariant_cell_and_box | apply silent_step].
Qed.

(** X18. Every file the run writes holds its configuration inside the box:
    from a positive box length on, each call of [write_cnf_atoms] (the
    snapshots and [cnf.out]) is handed the particle count read, a positive
    box length and coordinates within half a box length of the origin. *)
Theorem files_are_inside_the_box (p : params) (w : world) :
  0 < box w ->
  Forall (inside_box (n w)) (written (log w)) ->
  Forall (inside_box (n w)) (written (log (snd (simulation p w)))).
Proof.
  intros Hbox Hfiles.
  assert (Hstart : sound (n w) (snd (to_box_units w))).
  { split.
    - rewrite to_box_units_equation. simpl.
      split; [apply map_periodic_in_cell | auto].
    - rewrite silent_to_box_units. exact Hfiles. }
  unfold simulation. unfold bind at 1.
  rewrite to_box_units_equation in *. cbn [snd] in Hstart.
  revert Hstart.
  generalize (set_r (map periodic (divide_by (box w) (r w)))
       (record (EFormatF "Box length" (box w))
          (record (EFormatD "Number of particles" (n w)) w))).
  intros w0 Hstart.
  match goal with
  | |- Forall _ (written (log (snd (?c w0)))) =>
      assert (Hrest : preserves (sound (n w)) c); [| apply (Hrest w0 Hstart)]
  end.
  apply preserves_bind; [keep_sound | intros _].
  apply preserves_bind; [keep_sound | intros ?].
  apply preserves_bind; [keep_sound | intros _].
  apply preserves_bind;
    [apply preserves_for_each; intros blk; apply preserves_sound_block
    | intros _].
  keep_sound.
Qed.

(** ** Further properties: the names of the snapshots *)

Lemma tag_reads_back (k : nat) :
  (k < 1000)%nat ->
  number_of_tag (sav_tag_for (Z.of_nat k)) = Some (Z.of_nat k).
Proof.
  intros Hk.
  assert (Hall : forallb
            (fun j => match number_of_tag (sav_tag_for (Z.of_nat j)) with
                      | Some z => (z =? Z.of_nat j)%Z
                      | None => false
                      end)
            (seq 0 1000) = true) by (vm_compute; reflexivity).
  rewrite forallb_forall in Hall.
  specialize (Hall k). rewrite in_seq in Hall. specialize (Hall ltac:(lia)).
  destruct (number_of_tag _) as [z |]; [| discriminate].
  apply Z.eqb_eq in Hall. congruence.
Qed.

Lemma snapshot_name_tag (a b : Z) :
  snapshot_name a = snapshot_name b -> sav_tag_for a = sav_tag_for b.
Proof. unfold snapshot_name. simpl. intros [= H]. exact H. Qed.

(** X19. Below block 1000 the snapshot names tell the blocks apart: the tag
    read as a decimal number is the block number, two different blocks
    between 1 and 999 have different file names, and none of them has the
    name used from block 1000 on. *)
Theorem snapshot_names_tell_blocks_apart (a b : Z) :
  (1 <= a <= 999)%Z ->
  number_of_tag (sav_tag_for a) = Some a
  /\ ((1 <= b <= 999)%Z -> snapshot_name a = snapshot_name b -> a = b)
  /\ ((1000 <= b)%Z -> snapshot_name a <> snapshot_name b).
Proof.
  intros Ha.
  assert (Hback : forall c, (1 <= c <= 999)%Z ->
            number_of_tag (sav_tag_for c) = Some c).
  { intros c Hc. rewrite <- (Z2Nat.id c) by lia. apply tag_reads_back. lia. }
  split; [apply Hback, Ha |]. split.
  - intros Hb Hname. apply snapshot_name_tag in Hname.
    pose proof (Hback a Ha) as Hna. rewrite Hname, (Hback b Hb) in Hna.
    congruence.
  - intros Hb Hname. apply snapshot_name_tag in Hname.
    pose proof (Hback a Ha) as Hna. rewrite Hname in Hna.
    unfold sav_tag_for in Hna.
    destruct (b <? 1000)%Z eqn:Hlt; [apply Z.ltb_lt in Hlt; lia |].
    discriminate Hna.
Qed.

(** X20. No snapshot of a block is written over the input file or the final
    file: for every block number from 1 on, the snapshot name is neither
    [cnf.inp] nor [cnf.out]. *)
Theorem snapshots_spare_input_and_output (blk : Z) :
  (1 <= blk)%Z ->
  snapshot_name blk <> String.append cnf_prefix inp_tag
  /\ snapshot_name blk <> String.append cnf_prefix out_tag.
Proof.
  intros Hblk.
  assert (Hno : forall tag : string,
            number_of_tag tag = None -> tag <> "sav"%string ->
            snapshot_name blk <> String.append cnf_prefix tag).
  { intros tag Hnum Hsav Hname.
    unfold snapshot_name in Hname. simpl in Hname. injection Hname as Htag.
    destruct (Z_lt_le_dec blk 1000) as [Hlt | Hge].
    - rewrite <- (Z2Nat.id blk) in Htag by lia.
      pose proof (tag_reads_back (Z.to_nat blk) ltac:(lia)) as Hback.
      rewrite Htag, Hnum in Hback. discriminate.
    - unfold sav_tag_for in Htag.
      destruct (blk <? 1000)%Z eqn:Hb; [apply Z.ltb_lt in Hb; lia |].
      congruence. }
  split; apply Hno; try reflexivity; discriminate.
Qed.

(** ** Further properties: how a run can end *)

Lemma well_formed_shape (w w' : world) :
  n w' = n w -> length (r w') = length (r w) -> well_formed w -> well_formed w'.
Proof. unfold well_formed. intros -> ->. auto. Qed.

Lemma well_formed_bookkeeping {A : Type} (c : M world A) (w : world) :
  bookkeeping c -> well_formed w -> well_formed (snd (c w)).
Proof.
  intros Hc Hw. destruct (Hc w) as (Hn & _ & Hr).
  apply (well_formed_shape w); [exact Hn | rewrite Hr; reflexivity | exact Hw].
Qed.

Lemma steps_return (p : params) {A : Type} (l : list A) :
  forall w : world,
    well_formed w -> measurable w ->
    exists w' : world,
      for_each l (fun _ => step p) w = (Ok tt, w')
      /\ well_formed w' /\ measurable w'.
Proof.
  induction l as [| x l IH]; intros w Hw Hm.
  - exists w. split; [reflexivity | split; assumption].
  - cbn [for_each]. unfold bind.
    destruct (step_returns p w Hw Hm) as (w1 & Hstep).
    pose proof (preserves_step _ p (invariant_shape (n w) (length (r w))) w
                  (conj eq_refl eq_refl)) as [Hn Hr].
    pose proof (measurable_step p w Hm) as Hm1.
    rewrite Hstep in *. cbn [snd] in *.
    apply IH; [apply (well_formed_shape w); assumption | exact Hm1].
Qed.

Lemma block_returns (p : params) (blk : Z) (w : world) :
  well_formed w -> measurable w ->
  exists w' : world,
    block p blk w = (Ok tt, w') /\ well_formed w' /\ measurable w'.
Proof.
  intros Hw Hm. rewrite block_equation.
  destruct (steps_return p (range 0 (nstep p)) (record EBlkBegin w))
    as (w1 & Hsteps & Hw1 & Hm1).
  { apply (well_formed_shape w); [reflexivity | reflexivity | exact Hw]. }
  { exact Hm. }
  rewrite Hsteps. rewrite checkpoint_equation.
  eexists. split; [reflexivity |]. split.
  - apply (well_formed_shape w1); [reflexivity | reflexivity | exact Hw1].
  - exact Hm1.
Qed.

Lemma blocks_return (p : params) (l : list Z) :
  forall w : world,
    well_formed w -> measurable w ->
    exists w' : world,
      for_each l (block p) w = (Ok tt, w')
      /\ well_formed w' /\ measurable w'.
Proof.
  induction l as [| blk l IH]; intros w Hw Hm.
  - exists w. split; [reflexivity | split; assumption].
  - cbn [for_each]. unfold bind.
    destruct (block_returns p blk w Hw Hm) as (w1 & Hblk & Hw1 & Hm1).
    rewrite Hblk. apply IH; assumption.
Qed.

(** On a well-formed world where volume and density can be computed, the
    run returns unless one of the two overlap tests of the script reports an
    overlap. *)
Lemma simulation_cases (p : params) (w : world) :
  well_formed w -> measurable w ->
  fst (simulation p w) = Ok tt
  \/ (fst (simulation p w) =
        Raise (AssertionError "Overlap in initial configuration")
      /\ exists b rs, overlap (fast p) b rs = true)
  \/ (fst (simulation p w) =
        Raise (AssertionError "Overlap in final configuration")
      /\ exists b rs, overlap (fast p) b rs = true).
Proof.
  intros Hw Hm.
  destruct (simulation p w) as [res w'] eqn:Hsim. cbn [fst].
  unfold simulation in Hsim. unfold bind at 1 in Hsim.
  rewrite to_box_units_equation in Hsim.
  set (w0 := set_r _ _) in Hsim.
  assert (Hw0 : well_formed w0).
  { apply (well_formed_shape w); [reflexivity | | exact Hw].
    subst w0. simpl. unfold divide_by. rewrite !length_map. reflexivity. }
  assert (Hm0 : measurable w0) by exact Hm.
  clearbody w0.
  assert (Hcalc : forall title (w2 : world),
            well_formed w2 -> measurable w2 ->
            exists vs w3, calculate (Some title) w2 = (Ok vs, w3)
                          /\ well_formed w3 /\ measurable w3).
  { intros title w2 Hw2 Hm2.
    rewrite (calculate_diagnostic title w2 Hm2).
    eexists. eexists. split; [reflexivity |]. split; [| exact Hm2].
    apply (well_formed_shape w2); [reflexivity | reflexivity | exact Hw2]. }
  unfold bind at 1 in Hsim.
  rewrite check_overlap_equation in Hsim. cbv zeta in Hsim.
  destruct (overlap (fast p) (box w0) (r w0)) eqn:Hov.
  { injection Hsim as <- _. right. left. split; [reflexivity | eauto]. }
  cbv beta iota in Hsim.
  set (w1 := record _ w0) in Hsim.
  assert (Hw1 : well_formed w1)
    by (apply (well_formed_shape w0); [reflexivity | reflexivity | exact Hw0]).
  assert (Hm1 : measurable w1) by exact Hm0.
  clearbody w1.
  unfold bind at 1 in Hsim.
  destruct (Hcalc "Initial values"%string w1 Hw1 Hm1)
    as (vs & w2 & Hc2 & Hw2 & Hm2).
  rewrite Hc2 in Hsim.
  unfold bind at 1 in Hsim. unfold emit at 1, modify at 1 in Hsim.
  unfold bind at 1 in Hsim.
  destruct (blocks_return p (range 1 (nblock p + 1)) (record (ERunBegin vs) w2))
    as (w3 & Hblocks & Hw3 & Hm3).
  { apply (well_formed_shape w2); [reflexivity | reflexivity | exact Hw2]. }
  { exact Hm2. }
  rewrite Hblocks in Hsim.
  unfold bind at 1 in Hsim. unfold emit at 1, modify at 1 in Hsim.
  unfold bind at 1 in Hsim.
  destruct (Hcalc "Final values"%string (record ERunEnd w3))
    as (vs' & w4 & Hc4 & Hw4 & Hm4).
  { apply (well_formed_shape w3); [reflexivity | reflexivity | exact Hw3]. }
  { exact Hm3. }
  rewrite Hc4 in Hsim.
  unfold bind at 1 in Hsim.
  rewrite check_overlap_equation in Hsim. cbv zeta in Hsim.
  destruct (overlap (fast p) (box w4) (r w4)) eqn:Hov4.
  - injection Hsim as <- _. right. right. split; [reflexivity | eauto].
  - injection Hsim as <- _. left. reflexivity.
Qed.

(** X21. How a run on a configuration with a row for every atom and [n]
    other than zero can end.  Where volume and density can be computed, the
    two overlap assertions are the only way it can fail: it returns, or it
    raises 'Overlap in initial configuration' or 'Overlap in final
    configuration'; no step raises.  With a box length read from the file
    whose cube vanishes (as that of 0.0 does) it raises the first assertion
    or, in [calculate('Initial values')], [ZeroDivisionError]; with one whose
    cube overflows, or an [n] that does, the first assertion or
    [OverflowError]. *)
Theorem run_outcomes (p : params) (w : world) :
  well_formed w ->
  (measurable w ->
   fst (simulation p w) = Ok tt
   \/ fst (simulation p w) =
        Raise (AssertionError "Overlap in initial configuration")
   \/ fst (simulation p w) =
        Raise (AssertionError "Overlap in final configuration"))
  /\ (box_numpy w = false ->
      ~ overflows (IZR (n w)) -> vanishes (box w ^ 3) ->
      fst (simulation p w) =
        Raise (AssertionError "Overlap in initial configuration")
      \/ fst (simulation p w) = Raise ZeroDivisionError)
  /\ (overflows (IZR (n w))
      \/ box_numpy w = false /\ overflows (box w ^ 3) ->
      fst (simulation p w) =
        Raise (AssertionError "Overlap in initial configuration")
      \/ fst (simulation p w) = Raise OverflowError).
Proof.
  intros Hw. split.
  { intros Hm.
    destruct (simulation_cases p w Hw Hm) as [H | [[H _] | [H _]]]; auto. }
  destruct (simulation p w) as [res w'] eqn:Hsim. cbn [fst].
  unfold simulation in Hsim. unfold bind at 1 in Hsim.
  rewrite to_box_units_equation in Hsim.
  set (w0 := set_r _ _) in Hsim.
  unfold bind at 1 in Hsim.
  rewrite check_overlap_equation in Hsim. cbv zeta in Hsim.
  destruct (overlap (fast p) (box w0) (r w0)).
  { injection Hsim as <- _. split; intros; left; reflexivity. }
  cbv beta iota in Hsim.
  set (w1 := record _ w0) in Hsim.
  assert (Hb1 : n w1 = n w /\ box w1 = box w /\ box_numpy w1 = box_numpy w)
    by (repeat split).
  clearbody w1. clear w0. destruct Hb1 as (Hn1 & Hb1 & Hf1).
  unfold bind at 1 in Hsim.
  split.
  - intros Hf Hn Hbox. right.
    assert (Hraise : calculate (Some "Initial values"%string) w1 =
                       (Raise ZeroDivisionError, w1)).
    { apply calculate_zero_division;
        [rewrite Hf1; exact Hf | rewrite Hn1; exact Hn
        | rewrite Hb1; exact Hbox]. }
    rewrite Hraise in Hsim. injection Hsim as <- _. reflexivity.
  - intros Hover. right.
    assert (Hraise : calculate (Some "Initial values"%string) w1 =
                       (Raise OverflowError, w1)).
    { apply calculate_overflow. rewrite Hn1, Hf1, Hb1. exact Hover. }
    rewrite Hraise in Hsim. injection Hsim as <- _. reflexivity.
Qed.

(** ** Further properties: the statistics calls *)

Lemma statistics_app (a b : list event) :
  statistics (a ++ b) = statistics a ++ statistics b.
Proof. unfold statistics. apply flat_map_app. Qed.

Lemma unrecorded_bind {A B : Type} (c : M world A) (k : A -> M world B) :
  unrecorded c -> (forall a, unrecorded (k a)) -> unrecorded (bind c k).
Proof.
  intros Hc Hk w. unfold bind. specialize (Hc w).
  destruct (c w) as [[a | e] w']; simpl in *.
  - rewrite Hk. exact Hc.
  - exact Hc.
Qed.

Lemma unrecorded_for_each {A : Type} (xs : list A) (body : A -> M world unit) :
  (forall x, unrecorded (body x)) -> unrecorded (for_each xs body).
Proof.
  intros Hbody. induction xs as [| x xs IH]; simpl.
  - intros w. reflexivity.
  - apply unrecorded_bind; [apply Hbody | intros _; exact IH].
Qed.

Lemma unrecorded_still {A : Type} (c : M world A) :
  (forall w, log (snd (c w)) = log w) -> unrecorded c.
Proof. intros Hc w. rewrite Hc. reflexivity. Qed.

Lemma unrecorded_emit (e : event) : stat_of e = [] -> unrecorded (emit e).
Proof.
  intros He w. unfold emit, modify. simpl.
  rewrite statistics_app. unfold statistics at 2. simpl. rewrite He.
  apply app_nil_r.
Qed.

Lemma unrecorded_call_rand : unrecorded call_rand.
Proof.
  intros w. unfold call_rand. destruct (np_random_rand (gen w)). simpl.
  rewrite statistics_app. apply app_nil_r.
Qed.

Lemma unrecorded_call_random_translate_vector (dr : R) (old : vec) :
  unrecorded (call_random_translate_vector dr old).
Proof.
  intros w. unfold call_random_translate_vector.
  destruct (random_translate_vector dr old (gen w)). simpl.
  rewrite statistics_app. apply app_nil_r.
Qed.

Lemma unrecorded_call_metropolis (delta : R) :
  unrecorded (call_metropolis delta).
Proof.
  intros w. unfold call_metropolis. destruct (metropolis delta (gen w)). simpl.
  rewrite statistics_app. apply app_nil_r.
Qed.

(** Decompose a sequence of statements none of which calls the statistics
    module. *)
Ltac off_record :=
  repeat match goal with
    | |- unrecorded (bind _ _) => apply unrecorded_bind; [| intros ?]
    | |- unrecorded (for_each _ _) => apply unrecorded_for_each; intros ?
    | |- unrecorded (emit _) => apply unrecorded_emit; reflexivity
    | |- unrecorded (print _) => apply unrecorded_emit; reflexivity
    | |- unrecorded call_rand => apply unrecorded_call_rand
    | |- unrecorded (call_random_translate_vector _ _) =>
        apply unrecorded_call_random_translate_vector
    | |- unrecorded (call_metropolis _) => apply unrecorded_call_metropolis
    | |- unrecorded (match ?x with _ => _ end) => destruct x; cbv iota
    | |- unrecorded (row ?rs ?i) => unfold row
    | |- unrecorded (np_delete _ _) => unfold np_delete
    | |- unrecorded (int_true_div _ _) => unfold int_true_div
    | |- unrecorded (read ?f) =>
        apply unrecorded_still; intros ?; unfold read; destruct (f _);
        reflexivity
    | |- unrecorded (assert ?b _) => unfold assert
    | |- unrecorded (ret _) => apply unrecorded_still; intros ?; reflexivity
    | |- unrecorded (raise _) => apply unrecorded_still; intros ?; reflexivity
    | |- unrecorded (gets _) => apply unrecorded_still; intros ?; reflexivity
    | |- unrecorded (modify _) => apply unrecorded_still; intros ?; reflexivity
    end.

Lemma unrecorded_sweep (p : params) : unrecorded (sweep p).
Proof. unfold sweep, move_atom, call_overlap_1. off_record. Qed.

Lemma unrecorded_volume_move (p : params) : unrecorded (volume_move p).
Proof. unfold volume_move, call_overlap. off_record. Qed.

Lemma unrecorded_calculate (string : option String.string) :
  unrecorded (calculate string).
Proof. unfold calculate, cube, int_over_float. off_record. Qed.

Lemma unrecorded_check_overlap (p : params) (msg : string) :
  unrecorded (check_overlap p msg).
Proof. unfold check_overlap, call_overlap. off_record. Qed.

Lemma unrecorded_to_box_units : unrecorded to_box_units.
Proof. unfold to_box_units. off_record. Qed.

Lemma unrecorded_write_cnf_atoms (tag : string) :
  unrecorded (write_cnf_atoms tag).
Proof. unfold write_cnf_atoms. off_record. Qed.

(** A step that returns has called [blk_add] once. *)
Lemma step_statistics (p : params) (w w' : world) :
  step p w = (Ok tt, w') ->
  statistics (log w') = statistics (log w) ++ [ BlkAdd ].
Proof.
  intros Hstep. unfold step in Hstep.
  quiet_statement Hstep (unrecorded_sweep p) H1; [| discriminate].
  quiet_statement Hstep (unrecorded_volume_move p) H2; [| discriminate].
  unfold observe in Hstep.
  quiet_statement Hstep (unrecorded_calculate None) H3; [| discriminate].
  unfold emit, modify in Hstep. injection Hstep as <-.
  cbn [log record world_logged]. rewrite statistics_app.
  rewrite H3, H2, H1. reflexivity.
Qed.

Lemma steps_statistics (p : params) {A : Type} (l : list A) :
  forall w w' : world,
    for_each l (fun _ => step p) w = (Ok tt, w') ->
    statistics (log w') = statistics (log w) ++ repeat BlkAdd (length l).
Proof.
  induction l as [| x l IH]; intros w w' Hrun.
  - injection Hrun as <-. simpl. rewrite app_nil_r. reflexivity.
  - cbn [for_each] in Hrun. unfold bind in Hrun.
    destruct (step p w) as [[[] | e] w1] eqn:Hstep; [| discriminate].
    rewrite (IH w1 w' Hrun), (step_statistics p w w1 Hstep).
    rewrite <- app_assoc. reflexivity.
Qed.

Lemma range_length (lo hi : Z) : length (range lo hi) = Z.to_nat (hi - lo).
Proof. unfold range. rewrite length_map, length_seq. reflexivity. Qed.

Lemma block_statistics (p : params) (blk : Z) (w w' : world) :
  block p blk w = (Ok tt, w') ->
  statistics (log w') = statistics (log w) ++ block_protocol (nstep p) blk.
Proof.
  rewrite block_equation. intros Hblk.
  destruct (for_each (range 0 (nstep p)) (fun _ : Z => step p)
              (record EBlkBegin w)) as [[[] | e] w1] eqn:Hsteps;
    [| discriminate].
  apply steps_statistics in Hsteps. rewrite range_length in Hsteps.
  rewrite checkpoint_equation in Hblk. injection Hblk as <-.
  cbn [log record world_logged set_sav_tag].
  rewrite !statistics_app, Hsteps. cbn [log record world_logged].
  rewrite statistics_app. unfold block_protocol.
  replace (nstep p - 0)%Z with (nstep p) by lia.
  simpl. rewrite app_nil_r, <- !app_assoc. reflexivity.
Qed.

Lemma blocks_statistics (p : params) (l : list Z) :
  forall w w' : world,
    for_each l (block p) w = (Ok tt, w') ->
    statistics (log w') =
      statistics (log w) ++ flat_map (block_protocol (nstep p)) l.
Proof.
  induction l as [| blk l IH]; intros w w' Hrun.
  - injection Hrun as <-. simpl. rewrite app_nil_r. reflexivity.
  - cbn [for_each] in Hrun. unfold bind in Hrun.
    destruct (block p blk w) as [[[] | e] w1] eqn:Hblk; [| discriminate].
    rewrite (IH w1 w' Hrun), (block_statistics p blk w w1 Hblk).
    cbn [flat_map]. rewrite <- app_assoc. reflexivity.
Qed.

(** X22. A run that returns has used the statistics module by its protocol:
    [run_begin] once, then for each block from 1 to [nblock] one [blk_begin],
    [nstep] calls of [blk_add] and [blk_end] with the block number, then
    [run_end] once; [nblock * nstep] steps are recorded in all. *)
Theorem statistics_protocol (p : params) (w : world) :
  fst (simulation p w) = Ok tt ->
  statistics (log (snd (simulation p w))) =
    statistics (log w)
    ++ [ RunBegin ]
    ++ flat_map (block_protocol (nstep p)) (range 1 (nblock p + 1))
    ++ [ RunEnd ].
Proof.
  destruct (simulation p w) as [res w'] eqn:Hsim. cbn [fst snd].
  intros ->. unfold simulation in Hsim.
  quiet_statement Hsim unrecorded_to_box_units H1; [| discriminate].
  quiet_statement Hsim
    (unrecorded_check_overlap p "Overlap in initial configuration") H2;
    [| discriminate].
  quiet_statement Hsim (unrecorded_calculate (Some "Initial values"%string)) H3;
    [| discriminate].
  unfold bind at 1 in Hsim. unfold emit at 1, modify at 1 in Hsim.
  unfold bind at 1 in Hsim.
  match type of Hsim with
  | match for_each ?l _ ?w3 with _ => _ end = _ =>
      destruct (for_each l (block p) w3) as [[[] | e] w4] eqn:Hblocks;
      [| discriminate]
  end.
  apply blocks_statistics in Hblocks.
  cbn [log record world_logged] in Hblocks.
  rewrite statistics_app in Hblocks.
  unfold bind at 1 in Hsim. unfold emit at 1, modify at 1 in Hsim.
  assert (H5 : statistics (log (record ERunEnd w4)) =
               statistics (log w4) ++ [ RunEnd ]).
  { cbn [log record world_logged]. apply statistics_app. }
  revert Hsim H5. generalize (record ERunEnd w4). intros w5 Hsim H5.
  quiet_statement Hsim (unrecorded_calculate (Some "Final values"%string)) H6;
    [| discriminate].
  quiet_statement Hsim
    (unrecorded_check_overlap p "Overlap in final configuration") H7;
    [| discriminate].
  quiet_statement Hsim (unrecorded_write_cnf_atoms out_tag) H8; [| discriminate].
  unfold emit, modify in Hsim. injection Hsim as <-.
  cbn [log record world_logged]. rewrite statistics_app.
  rewrite H8, H7, H6, H5, Hblocks, H3, H2, H1.
  simpl. rewrite app_nil_r, <- !app_assoc. reflexivity.
Qed.

End Properties.

(** ** Concrete runs *)

(** [calculate('Initial values')] on a configuration file with one atom
    and a box length of 0.0, of 1e103 and of 1e-108: division by zero, a
    cube beyond the float range, and a cube that is the float 0.0. *)
Example calculate_at_zero_box :
  let C := fixed false true (1 / 2) in
  let w := loaded (C := C) (1%Z, 0, [(0, 0, 0)]) 0%nat [] in
  calculate (Some "Initial values"%string) w = (Raise ZeroDivisionError, w).
Proof.
  intros C w. apply calculate_zero_division; [reflexivity | |].
  - assert (H1 : 1 <= Rabs (IZR 1) <= 1000) by (rewrite Rabs_right; lra).
    exact (proj1 (moderate_float _ H1)).
  - unfold vanishes, float_tiny. simpl.
    rewrite Rmult_0_l, Rabs_R0.
    left. apply Rinv_0_lt_compat, IZR_lt, Z.ltb_lt. vm_compute. reflexivity.
Qed.

Example calculate_at_huge_box :
  let C := fixed false true (1 / 2) in
  let w := loaded (C := C) (1%Z, IZR (10 ^ 103), [(0, 0, 0)]) 0%nat [] in
  calculate (Some "Initial values"%string) w = (Raise OverflowError, w).
Proof.
  intros C w. apply calculate_overflow. right. split; [reflexivity |].
  unfold overflows, float_huge.
  change (box w) with (IZR (10 ^ 103)).
  rewrite pow_IZR, Rabs_right.
  - apply IZR_le, Z.leb_le. vm_compute. reflexivity.
  - apply Rle_ge, IZR_le, Z.leb_le. vm_compute. reflexivity.
Qed.

Example calculate_at_tiny_box :
  let C := fixed false true (1 / 2) in
  let w := loaded (C := C) (1%Z, / IZR (10 ^ 108), [(0, 0, 0)]) 0%nat [] in
  calculate (Some "Initial values"%string) w = (Raise ZeroDivisionError, w).
Proof.
  intros C w. apply calculate_zero_division; [reflexivity | |].
  - assert (H1 : 1 <= Rabs (IZR 1) <= 1000) by (rewrite Rabs_right; lra).
    exact (proj1 (moderate_float _ H1)).
  - unfold vanishes, float_tiny.
    change (box w) with (/ IZR (10 ^ 108)).
    rewrite pow_inv, pow_IZR, Rabs_right.
    + apply Rinv_le_contravar;
        [apply IZR_lt, Z.ltb_lt | apply IZR_le, Z.leb_le];
        vm_compute; reflexivity.
    + apply Rle_ge. left. apply Rinv_0_lt_compat, IZR_lt, Z.ltb_lt.
      vm_compute. reflexivity.
Qed.

Lemma measurable_one_atom (C : Collaborators) (g : rng) :
  measurable (one_atom C g).
Proof.
  assert (H1 : 1 <= Rabs (IZR 1) <= 1000) by (rewrite Rabs_right; lra).
  assert (H8 : 1 <= Rabs (2 ^ 3) <= 1000) by (rewrite Rabs_right; lra).
  split; [exact (proj1 (moderate_float _ H1)) |].
  intros _. exact (moderate_float _ H8).
Qed.

Lemma volume_move_metropolis_argument_witness :
  let C := fixed false true (1 / 2) in
  let w := one_atom C 0%nat in
  let box_new := 2 * exp ((2 * (1 / 2) - 1) * 0.005) in
  overlap true box_new [(0, 0, 0)] = false
  /\ (exists accept : bool,
        log (snd (volume_move some_params w)) =
          [ ERand (1 / 2); EOverlap box_new [(0, 0, 0)] false;
            EMetropolis
              (4.0 * (box_new ^ 3 - 2 ^ 3)
               + (1 + 1) * ln (/ exp ((2 * (1 / 2) - 1) * 0.005) ^ 3))
              accept ]).
Proof.
  intros C w box_new. split; [reflexivity |].
  apply (volume_move_metropolis_argument (C := C) some_params w).
  reflexivity.
Defined.

Lemma volume_move_overlap_rejected_witness :
  let C := fixed true true (1 / 2) in
  let w := one_atom C 0%nat in
  let box_new := 2 * exp ((2 * (1 / 2) - 1) * 0.005) in
  overlap true box_new [(0, 0, 0)] = true
  /\ (exists w' : world,
        volume_move some_params w = (Ok tt, w')
        /\ log w' = [ ERand (1 / 2); EOverlap box_new [(0, 0, 0)] true ]
        /\ gen w' = 1%nat
        /\ box w' = 2
        /\ v_ratio w' = Some 0).
Proof.
  intros C w box_new. split; [reflexivity |].
  destruct (volume_move_overlap_rejected (C := C) some_params w)
    as (w' & Hrun & Hlog & Hgen & Hbox & Hv & _); [reflexivity |].
  exists w'. repeat split; assumption.
Defined.

Lemma accepted_volume_move_frame_witness :
  let C := fixed false true (1 / 2) in
  let w := one_atom C 0%nat in
  let box_scale := exp ((2 * (1 / 2) - 1) * 0.005) in
  let box_new := 2 * box_scale in
  let delta :=
    4.0 * (box_new ^ 3 - 2 ^ 3) + (1 + 1) * ln (/ box_scale ^ 3) in
  overlap true box_new [(0, 0, 0)] = false
  /\ fst (metropolis delta 1%nat) = true
  /\ (exists w' : world,
        volume_move some_params w = (Ok tt, w')
        /\ box w' = box_new
        /\ r w' = [(0, 0, 0)]
        /\ n w' = 1%Z).
Proof.
  intros C w box_scale box_new delta.
  split; [reflexivity |]. split; [reflexivity |].
  destruct (accepted_volume_move_frame (C := C) some_params w)
    as (w' & Hrun & Hbox & Hr & Hn & _); [reflexivity | reflexivity |].
  exists w'. repeat split; assumption.
Defined.

Lemma move_atom_decision_witness :
  let C := fixed false true (1 / 2) in
  let w := one_atom C 0%nat in
  r w !! 0%nat = Some (0, 0, 0)
  /\ (exists w' : world,
        move_atom some_params 0 w = (Ok tt, w')
        /\ log w' = [ ERandomTranslate (0.15 / 2) (0, 0, 0) (0, 0, 0);
                      EOverlap1 (periodic (0, 0, 0)) 2 [] false ]
        /\ r w' = [periodic (0, 0, 0)]
        /\ moves w' = 1%Z).
Proof.
  intros C w. split; [reflexivity |].
  destruct (move_atom_decision (C := C) some_params 0 w (0, 0, 0))
    as (w' & Hrun & Hlog & _ & _ & (Hr & _ & Hm) & _); [reflexivity |].
  exists w'. repeat split; assumption.
Defined.

(** C4 as the spec has it fails at the initial read: a coordinate of 1 in a
    box of length 2 is stored as 0.5, which is outside [-0.5, 0.5). *)
Lemma initial_read_reaches_upper_end :
  ~ all_components in_half_open_cell
      (r (snd (to_box_units
                 (loaded (C := fixed false true (1 / 2))
                    (1%Z, 2, [(1, 0, 0)]) 0%nat [])))).
Proof.
  rewrite to_box_units_equation. simpl.
  intros H. apply Forall_cons_1 in H as [H _].
  apply Forall_cons_1 in H as [[_ H] _].
  replace (1 / 2 - rint (1 / 2)) with (1 / 2) in H
    by (rewrite rint_half; lra).
  lra.
Qed.

Lemma positions_stay_in_cell_witness :
  let C := fixed false true (1 / 2) in
  let w := one_atom C 0%nat in
  all_components in_cell (r w)
  /\ all_components in_cell (r (snd (move_atom some_params 0 w))).
Proof.
  intros C w.
  assert (H : all_components in_cell (r w)).
  { apply Forall_cons_2; [| apply Forall_nil_2].
    unfold in_cell.
    do 3 (apply Forall_cons_2; [lra |]). apply Forall_nil_2. }
  split; [exact H |].
  exact (proj1 (proj2 (positions_stay_in_cell (C := C) some_params)) 0%nat w H).
Defined.

Lemma box_stays_positive_witness :
  let C := fixed false true (1 / 2) in
  let w := one_atom C 0%nat in
  0 < box w /\ 0 < box (snd (step some_params w)).
Proof.
  intros C w.
  assert (H : 0 < box w) by (simpl; lra).
  split; [exact H |].
  destruct (box_stays_positive (C := C) some_params w H) as [[Hb _] _].
  exact Hb.
Defined.

Lemma calculate_returns_witness :
  let C := fixed true true (1 / 2) in
  let w := set_v_ratio 0 (set_m_ratio 1 (one_atom C 0%nat)) in
  measurable w /\ m_ratio w = Some 1 /\ v_ratio w = Some 0
  /\ calculate None w =
       (Ok [ {| nam := "Move ratio"; val := 1 |};
             {| nam := "Volume ratio"; val := 0 |};
             {| nam := "Density"; val := 1 / 2 ^ 3 |} ], w).
Proof.
  intros C w.
  assert (Hm : measurable w) by exact (measurable_one_atom C 0%nat).
  split; [exact Hm |]. split; [reflexivity |]. split; [reflexivity |].
  exact (proj1 (proj2 (calculate_returns (C := C) w)) Hm 1 0 eq_refl eq_refl).
Defined.

Lemma block_tag_witness :
  (1 <= 42 <= 999)%Z /\ sav_tag_for 42 = "042"%string.
Proof.
  assert (H : (1 <= 42 <= 999)%Z) by lia.
  split; [exact H |].
  exact (proj1 (block_tag (C := fixed true true 0) 42) H).
Defined.

(** C6 as the spec has it fails on any run: the exit status after invalid
    JSON is not different from zero. *)
Lemma invalid_json_status_is_zero :
  ~ (exit_status (main (C := fixed false true (1 / 2)) None
                    (1%Z, 2, [(0, 0, 0)]) 0%nat) <> 0%Z).
Proof. intros H. apply H. reflexivity. Qed.

Lemma key_check_outcomes_witness :
  let C := fixed false true (1 / 2) in
  let pre := [ ("colour", JStr "red") ]%string in
  let items := pre ++ [ ("pressure", JInt 4) ]%string in
  Forall (fun item => offending item = false) pre
  /\ offending ("pressure"%string, JInt 4) = true
  /\ main (C := C) (Some (JDict items)) (1%Z, 2, [(0, 0, 0)]) 0%nat =
       Stopped (AssertionError "pressure has the wrong type")
         (banner ++ [ EWarning "colour" (keys defaults) ]).
Proof.
  intros C pre items.
  assert (Hpre : Forall (fun item => offending item = false) pre).
  { apply Forall_cons_2; [reflexivity | apply Forall_nil_2]. }
  split; [exact Hpre |]. split; [reflexivity |].
  exact (proj1 (proj1 (key_check_outcomes (C := C) items
                         (1%Z, 2, [(0, 0, 0)]) 0%nat)
                  pre "pressure"%string (JInt 4) [] eq_refl Hpre eq_refl)).
Defined.


Lemma non_object_input_stops_witness :
  (forall d, JList [ JInt 1 ] <> JDict d)
  /\ main (C := fixed false true (1 / 2)) (Some (JList [ JInt 1 ]))
       (1%Z, 2, [(0, 0, 0)]) 0%nat = Stopped AttributeError banner.
Proof.
  assert (H : forall d, JList [ JInt 1 ] <> JDict d) by (intros d; discriminate).
  split; [exact H |].
  exact (proj1 (non_object_input_stops (C := fixed false true (1 / 2))
                  (JList [ JInt 1 ]) (1%Z, 2, [(0, 0, 0)]) 0%nat H)).
Defined.

Lemma number_kinds_are_not_mixed_witness :
  Forall (fun item => offending item = false) []
  /\ In "nblock"%string [ "nblock"; "nstep" ]%string
  /\ main (C := fixed false true (1 / 2))
       (Some (JDict [ ("nblock"%string, JBool true) ]))
       (1%Z, 2, [(0, 0, 0)]) 0%nat =
       Stopped (AssertionError "nblock has the wrong type") banner.
Proof.
  assert (Hpre : Forall (fun item : string * json => offending item = false) [])
    by apply Forall_nil_2.
  assert (Hin : In "nblock"%string [ "nblock"; "nstep" ]%string)
    by (left; reflexivity).
  split; [exact Hpre |]. split; [exact Hin |].
  exact (number_kinds_are_not_mixed (C := fixed false true (1 / 2)) [] []
           "nblock" (JBool true) (1%Z, 2, [(0, 0, 0)]) 0%nat Hpre
           (or_intror (conj Hin (or_introl eq_refl)))).
Defined.

Lemma parameters_default_witness :
  let items := [ ("nstep", JInt 5); ("colour", JStr "red") ]%string in
  Forall (fun item => offending item = false) items
  /\ (exists p : params,
        read_parameters (Some (JDict items)) [] =
          (Ok p, banner ++ [ EWarning "colour" (keys defaults) ])
        /\ nblock p = 10%Z /\ nstep p = 5%Z).
Proof.
  intros items.
  assert (Hitems : Forall (fun item => offending item = false) items).
  { repeat (apply Forall_cons_2; [reflexivity |]). apply Forall_nil_2. }
  split; [exact Hitems |].
  destruct (parameters_default items Hitems) as (p & Hrun & Hb & Hs & _).
  exists p. repeat split; assumption.
Defined.

Lemma move_ratio_is_a_fraction_witness :
  let C := fixed false true (1 / 2) in
  let w := one_atom C 0%nat in
  well_formed w
  /\ (exists (w1 : world) (m : R),
        sweep some_params w = (Ok tt, w1) /\ m_ratio w1 = Some m
        /\ 0 <= m <= 1).
Proof.
  intros C w.
  assert (Hw : well_formed w) by (split; simpl; lia).
  split; [exact Hw |].
  destruct (move_ratio_is_a_fraction (C := C) some_params w Hw)
    as (w1 & m & Hrun & Hm & _ & _ & Hbounds).
  exists w1, m. repeat split; try assumption; apply Hbounds.
Defined.

Lemma empty_configuration_raises_witness :
  let C := fixed false true (1 / 2) in
  let w := loaded (C := C) (0%Z, 2, []) 0%nat [] in
  n w = 0%Z
  /\ step some_params w = (Raise ZeroDivisionError, set_moves 0 w).
Proof.
  intros C w. split; [reflexivity |].
  exact (proj2 (empty_configuration_raises (C := C) some_params w eq_refl)).
Defined.

Lemma missing_rows_raise_witness :
  let C := fixed false true (1 / 2) in
  let w := loaded (C := C) (2%Z, 2, [(0, 0, 0)]) 0%nat [] in
  (length (r w) < Z.to_nat (n w))%nat
  /\ (exists (w1 : world) (trail : list event),
        log w1 = log w ++ trail /\ length (trials trail) = 1%nat
        /\ sweep some_params w = (Raise IndexError, w1)).
Proof.
  intros C w.
  assert (H : (length (r w) < Z.to_nat (n w))%nat) by (simpl; lia).
  split; [exact H |].
  destruct (missing_rows_raise (C := C) some_params w H)
    as (w1 & trail & _ & Hlog & Hlen & Hsweep & _).
  exists w1, trail. repeat split; assumption.
Defined.

Lemma moves_count_accepted_trials_witness :
  let C := fixed true true (1 / 2) in
  let w := one_atom C 0%nat in
  well_formed w
  /\ (exists (w1 : world) (trail : list event),
        sweep some_params w = (Ok tt, w1)
        /\ length (trials trail) = 1%nat
        /\ moves w1 = accepted trail).
Proof.
  intros C w.
  assert (Hw : well_formed w) by (split; simpl; lia).
  split; [exact Hw |].
  destruct (moves_count_accepted_trials (C := C) some_params w Hw)
    as (w1 & trail & Hrun & _ & Hlen & Hmoves & _).
  exists w1, trail. repeat split; assumption.
Defined.

Lemma later_atoms_see_the_update_witness :
  let C := fixed false true (1 / 2) in
  let w := set_r [(0, 0, 0); (1 / 4, 0, 0)] (one_atom C 0%nat) in
  0%nat <> 1%nat
  /\ r w !! 0%nat = Some (0, 0, 0) /\ r w !! 1%nat = Some (1 / 4, 0, 0)
  /\ overlap_1 true (periodic (0, 0, 0)) 2 [(1 / 4, 0, 0)] = false
  /\ (exists w' : world,
        (move_atom some_params 0 ;; move_atom some_params 1) w = (Ok tt, w')
        /\ In (periodic (0, 0, 0)) (delete 1%nat (<[0%nat := periodic (0, 0, 0)]> (r w)))).
Proof.
  intros C w.
  assert (Hne : 0%nat <> 1%nat) by discriminate.
  split; [exact Hne |]. split; [reflexivity |]. split; [reflexivity |].
  split; [reflexivity |].
  destruct (later_atoms_see_the_update (C := C) some_params 0 1 w
              (0, 0, 0) (1 / 4, 0, 0) Hne eq_refl eq_refl eq_refl)
    as (w' & Hrun & _ & Hin).
  exists w'. split; [exact Hrun | exact Hin].
Defined.

Lemma box_changes_by_bounded_factor_witness :
  let C := fixed false true (1 / 2) in
  let w := one_atom C 0%nat in
  0 < box w /\ 0 <= db_max some_params
  /\ 0 <= fst (np_random_rand (gen w)) < 1
  /\ 2 * exp (- db_max some_params) <= box (snd (volume_move some_params w))
       <= 2 * exp (db_max some_params).
Proof.
  intros C w.
  assert (H1 : 0 < box w) by (simpl; lra).
  assert (H2 : 0 <= db_max some_params) by (simpl; lra).
  assert (H3 : 0 <= fst (np_random_rand (gen w)) < 1) by (simpl; lra).
  split; [exact H1 |]. split; [exact H2 |]. split; [exact H3 |].
  exact (box_changes_by_bounded_factor (C := C) some_params w H1 H2 H3).
Defined.

Lemma metropolis_rejection_witness :
  let C := fixed false false (1 / 2) in
  let w := one_atom C 0%nat in
  let box_scale := exp ((2 * (1 / 2) - 1) * 0.005) in
  let box_new := 2 * box_scale in
  let delta :=
    4.0 * (box_new ^ 3 - 2 ^ 3) + (1 + 1) * ln (/ box_scale ^ 3) in
  overlap true box_new [(0, 0, 0)] = false
  /\ fst (metropolis delta 1%nat) = false
  /\ (exists w' : world,
        volume_move some_params w = (Ok tt, w')
        /\ box w' = 2 /\ v_ratio w' = Some 0).
Proof.
  intros C w box_scale box_new delta.
  split; [reflexivity |]. split; [reflexivity |].
  destruct (metropolis_rejection (C := C) some_params w)
    as (w' & Hrun & _ & Hbox & _ & _ & Hv); [reflexivity | reflexivity |].
  exists w'. repeat split; assumption.
Defined.

Lemma initial_overlap_stops_witness :
  let C := fixed true true (1 / 2) in
  let w := one_atom C 0%nat in
  overlap true 2 (map periodic (divide_by 2 [(0, 0, 0)])) = true
  /\ (exists w' : world,
        simulation some_params w =
          (Raise (AssertionError "Overlap in initial configuration"), w')
        /\ written (log w') = []).
Proof.
  intros C w. split; [reflexivity |].
  destruct (initial_overlap_stops (C := C) some_params w eq_refl)
    as (w' & Hrun & _ & Hfiles & _).
  exists w'. split; [exact Hrun | exact Hfiles].
Defined.

Lemma run_without_steps_witness :
  let C := fixed false true (1 / 2) in
  let w := one_atom C 0%nat in
  let p := {| nblock := 3; nstep := 0; dr_max := 0.15; db_max := 0.005;
              pressure := 4.0; fast := true |} in
  ((nblock p <= 0)%Z \/ (nstep p <= 0)%Z)
  /\ same_configuration (snd (to_box_units w)) (snd (simulation p w)).
Proof.
  intros C w p.
  assert (H : (nblock p <= 0)%Z \/ (nstep p <= 0)%Z) by (right; simpl; lia).
  split; [exact H |].
  exact (run_without_steps (C := C) p w H).
Defined.

Lemma files_are_inside_the_box_witness :
  let C := fixed false true (1 / 2) in
  let w := one_atom C 0%nat in
  0 < box w
  /\ Forall (inside_box (n w)) (written (log w))
  /\ Forall (inside_box 1) (written (log (snd (simulation some_params w)))).
Proof.
  intros C w.
  assert (Hbox : 0 < box w) by (simpl; lra).
  assert (Hfiles : Forall (inside_box (n w)) (written (log w)))
    by apply Forall_nil_2.
  split; [exact Hbox |]. split; [exact Hfiles |].
  exact (files_are_inside_the_box (C := C) some_params w Hbox Hfiles).
Defined.

Lemma snapshot_names_tell_blocks_apart_witness :
  (1 <= 7 <= 999)%Z /\ number_of_tag (sav_tag_for 7) = Some 7%Z.
Proof.
  assert (H : (1 <= 7 <= 999)%Z) by lia.
  split; [exact H |].
  exact (proj1 (snapshot_names_tell_blocks_apart 7 8 H)).
Defined.

Lemma snapshots_spare_input_and_output_witness :
  (1 <= 1000)%Z /\ snapshot_name 1000 <> "cnf.inp"%string.
Proof.
  assert (H : (1 <= 1000)%Z) by lia.
  split; [exact H |].
  exact (proj1 (snapshots_spare_input_and_output 1000 H)).
Defined.

Lemma run_outcomes_witness :
  let C := fixed false true (1 / 2) in
  let w := one_atom C 0%nat in
  well_formed w /\ measurable w
  /\ (fst (simulation some_params w) = Ok tt
      \/ fst (simulation some_params w) =
           Raise (AssertionError "Overlap in initial configuration")
      \/ fst (simulation some_params w) =
           Raise (AssertionError "Overlap in final configuration")).
Proof.
  intros C w.
  assert (Hw : well_formed w) by (split; simpl; lia).
  assert (Hm : measurable w) by exact (measurable_one_atom C 0%nat).
  split; [exact Hw |]. split; [exact Hm |].
  exact (proj1 (run_outcomes (C := C) some_params w Hw) Hm).
Defined.

Lemma statistics_protocol_witness :
  let C := fixed false true (1 / 2) in
  let w := one_atom C 0%nat in
  fst (simulation some_params w) = Ok tt
  /\ statistics (log (snd (simulation some_params w))) =
       [ RunBegin; BlkBegin; BlkAdd; BlkEnd 1; RunEnd ].
Proof.
  intros C w.
  assert (Hw : well_formed w) by (split; simpl; lia).
  assert (H : fst (simulation some_params w) = Ok tt).
  { destruct (simulation_cases some_params w Hw (measurable_one_atom C 0%nat))
      as [H | [[_ (b & rs & Hov)] | [_ (b & rs & Hov)]]];
      [exact H | discriminate Hov | discriminate Hov]. }
  split; [exact H |].
  exact (statistics_protocol (C := C) some_params w H).
Defined.
